(** * JsonRpcClient: a shallow embedding of [src/src/JsonRpcClient.js]

    The client sits between a transport channel, a message tracker and an
    event emitter.  The definitions below follow the JavaScript source
    function by function; the three collaborators, which live in other
    packages, are represented by the state they expose to the client, and
    the validation done by the JSON-RPC constructors is a parameter. *)

From Stdlib Require Import ZArith List String Bool Lia.
Import ListNotations.
Local Open Scope string_scope.
Set Warnings "-register-all".

(** ** JavaScript values

    Numbers are the integers a JSON-RPC id or error code can hold.  An object
    carries the address that gives it its identity ([===] on objects compares
    references) and the properties an [in] test or a member access can see. *)

Inductive value : Type :=
| VUndefined
| VNull
| VBool (b : bool)
| VNum (n : Z)
| VStr (s : string)
| VObj (addr : nat) (props : list (string * value)).

Definition props := list (string * value).

Inductive exn : Type :=
| TypeError
| LibraryError.      (* thrown by a constructor of [@adt/json-rpc] *)

Inductive result (A : Type) : Type :=
| Ok (a : A)
| Throw (e : exn).
Arguments Ok {A} a.
Arguments Throw {A} e.

Definition bindR {A B} (r : result A) (k : A -> result B) : result B :=
  match r with
  | Ok a => k a
  | Throw e => Throw e
  end.

Declare Scope js_scope.
Delimit Scope js_scope with js.
Notation "x <-? r ; k" := (bindR r (fun x => k))
  (at level 61, r at next level, right associativity) : js_scope.
Notation "' pat <-? r ; k" := (bindR r (fun x => match x with pat => k end))
  (at level 61, pat pattern, r at next level, right associativity) : js_scope.
Local Open Scope js_scope.

(** [typeof v] *)
Definition typeof (v : value) : string :=
  match v with
  | VUndefined => "undefined"
  | VNull => "object"
  | VBool _ => "boolean"
  | VNum _ => "number"
  | VStr _ => "string"
  | VObj _ _ => "object"
  end.

Fixpoint lookup (k : string) (ps : props) : option value :=
  match ps with
  | [] => None
  | (k', v) :: ps' => if k =? k' then Some v else lookup k ps'
  end.

Definition is_some {A} (o : option A) : bool :=
  match o with Some _ => true | None => false end.

(** [k in v]: a TypeError unless [v] is an object. *)
Definition has_prop (k : string) (v : value) : result bool :=
  match v with
  | VObj _ ps => Ok (is_some (lookup k ps))
  | _ => Throw TypeError
  end.

(** The value a member access reads from an object's properties. *)
Definition field (k : string) (ps : props) : value :=
  match lookup k ps with
  | Some x => x
  | None => VUndefined
  end.

(** [v.k]: a TypeError on [null] and [undefined], [undefined] when the
    property is absent. *)
Definition get_prop (k : string) (v : value) : result value :=
  match v with
  | VUndefined | VNull => Throw TypeError
  | VObj _ ps => Ok (field k ps)
  | _ => Ok VUndefined
  end.

(** [o.k = v] on a plain object under construction. *)
Fixpoint set_prop (k : string) (v : value) (ps : props) : props :=
  match ps with
  | [] => [(k, v)]
  | (k', v') :: ps' =>
      if k =? k' then (k, v) :: ps' else (k', v') :: set_prop k v ps'
  end.

(** [a === b] *)
Definition strict_eq (a b : value) : bool :=
  match a, b with
  | VUndefined, VUndefined => true
  | VNull, VNull => true
  | VBool x, VBool y => Bool.eqb x y
  | VNum x, VNum y => Z.eqb x y
  | VStr x, VStr y => String.eqb x y
  | VObj x _, VObj y _ => Nat.eqb x y
  | _, _ => false
  end.

(** ** The error constants [JsonRpcClient.ERRORS]

    The three constants are objects shared by every client.  [code] and
    [message] are read-only; [data] is declared [writable], so its current
    content belongs to the state (see [errors] below). *)

Inductive error_name : Type :=
| NO_ERROR
| TIMEOUT_EXCEEDED
| INVALID_STATE_ERR.

Definition code (e : error_name) : Z :=
  match e with
  | NO_ERROR => -32000
  | TIMEOUT_EXCEEDED => -32001
  | INVALID_STATE_ERR => -32002
  end.

Definition message (e : error_name) : string :=
  match e with
  | NO_ERROR => "No error"
  | TIMEOUT_EXCEEDED => "Waiting for response timeout exceeded"
  | INVALID_STATE_ERR => "WebSocket is already in CLOSING or CLOSED state"
  end.

Record errors : Type := {
  NO_ERROR_data : value;
  TIMEOUT_EXCEEDED_data : value;
  INVALID_STATE_ERR_data : value
}.

Definition ERRORS_initial : errors :=
  {| NO_ERROR_data := VUndefined;
     TIMEOUT_EXCEEDED_data := VUndefined;
     INVALID_STATE_ERR_data := VUndefined |}.

Definition data (E : errors) (e : error_name) : value :=
  match e with
  | NO_ERROR => NO_ERROR_data E
  | TIMEOUT_EXCEEDED => TIMEOUT_EXCEEDED_data E
  | INVALID_STATE_ERR => INVALID_STATE_ERR_data E
  end.

Definition set_data (e : error_name) (v : value) (E : errors) : errors :=
  match e with
  | NO_ERROR =>
      {| NO_ERROR_data := v;
         TIMEOUT_EXCEEDED_data := TIMEOUT_EXCEEDED_data E;
         INVALID_STATE_ERR_data := INVALID_STATE_ERR_data E |}
  | TIMEOUT_EXCEEDED =>
      {| NO_ERROR_data := NO_ERROR_data E;
         TIMEOUT_EXCEEDED_data := v;
         INVALID_STATE_ERR_data := INVALID_STATE_ERR_data E |}
  | INVALID_STATE_ERR =>
      {| NO_ERROR_data := NO_ERROR_data E;
         TIMEOUT_EXCEEDED_data := TIMEOUT_EXCEEDED_data E;
         INVALID_STATE_ERR_data := v |}
  end.

(** ** JSON-RPC elements

    What the constructors of the [@adt/json-rpc] package return, each tagged
    with the argument the client passed.  An error object is either built
    from a raw value, [JsonRpcError(m.error)], or is one of the shared
    constants, held by reference. *)

Inductive error_obj : Type :=
| JsonRpcError (v : value)
| ErrorsRef (e : error_name).

Inductive jsonrpc : Type :=
| JsonRpcResponseResult (o : props)
| JsonRpcResponseError (id : value) (error : error_obj)
| JsonRpcRequest (o : props)
| JsonRpcEvent (o : props).

(** What an emitter listener, a [resolve] or a [reject] can be handed. *)
Inductive obj : Type :=
| OValue (v : value)
| OElement (j : jsonrpc)
| OError (e : error_name).

Inductive outcome : Type :=
| Resolved (x : obj)
| Rejected (x : obj).

(** Calls made on the emitter and on the transport provider, oldest first. *)
Inductive action : Type :=
| Emit (evtName : string) (payload : obj)
| TransportConnect
| TransportSend (v : value)
| TransportDisconnect
| Settle (o : outcome).


(** The [@adt/json-rpc] package is not part of this repository's sources.
    [JsonRpcError], [JsonRpcRequest] and [JsonRpcEvent] validate their
    argument and throw when they reject it; which arguments they accept is
    not decided by the client, so it is a parameter of everything that
    follows.  [JsonRpcResponseResult] and [JsonRpcResponseError] are only
    given an id with a result, or an id with an error object that already
    exists, and are taken to return. *)
Record library : Type := {
  error_accepted : value -> bool;     (* [JsonRpcError(v)] returns *)
  request_accepted : props -> bool;   (* [JsonRpcRequest(o)] returns *)
  event_accepted : props -> bool      (* [JsonRpcEvent(o)] returns *)
}.

Definition is_integer (v : value) : bool :=
  match v with VNum _ => true | _ => false end.

Definition is_string (v : value) : bool :=
  match v with VStr _ => true | _ => false end.

(** The validation with which the closed examples at the end are evaluated:
    an error is an object with an integer code and a string message, a
    request and an event have a string method.  The theorems do not depend
    on it. *)
Definition wellformed : library :=
  {| error_accepted :=
       fun v =>
         match v with
         | VObj _ ps => is_integer (field "code" ps) && is_string (field "message" ps)
         | _ => false
         end;
     request_accepted := fun o => is_string (field "method" o);
     event_accepted := fun o => is_string (field "method" o) |}.

(** ** The world the client runs in *)

Record config : Type := {
  messageCheckInterval : Z;
  messageTimeout : Z
}.

(** The defaults the constructor falls back on, lines 35-38. *)
Definition default_config : config :=
  {| messageCheckInterval := 1000; messageTimeout := 5000 |}.

Definition filter_t : Type :=
  value -> value -> value -> result (list action * option outcome).

(** Modelled from the spec: the pending entry of the [@adt/message-tracker]
    package, which is not part of this repository's sources.  It keeps what
    [register] was given, the handle of the promise it returned and the
    deadline, [now] plus the configured timeout. *)
Record entry : Type := {
  e_handle : nat;
  e_message : value;
  e_filter : filter_t;
  e_timeoutRejectWith : obj;
  e_enableCallbacks : value;
  e_deadline : Z
}.

(** Modelled from the spec: the state of the message tracker, which is not
    part of this repository's sources: the pending entries in registration
    order, and the promises it has settled so far. *)
Record tracker : Type := {
  pending : list entry;
  settled : list (nat * outcome);
  next_handle : nat
}.

Definition empty_tracker : tracker :=
  {| pending := []; settled := []; next_handle := 0 |}.

Record state : Type := {
  cfg : config;
  isConnected : bool;          (* what [transportProvider.isConnected()] answers *)
  ERRORS : errors;             (* the [data] fields of [JsonRpcClient.ERRORS] *)
  messageTracker : tracker;
  clock : Z;                   (* milliseconds *)
  calls : list action          (* emitter and transport calls, oldest first *)
}.

Definition initial (c : config) : state :=
  {| cfg := c; isConnected := false; ERRORS := ERRORS_initial;
     messageTracker := empty_tracker; clock := 0; calls := [] |}.

Definition with_isConnected (b : bool) (s : state) : state :=
  {| cfg := cfg s; isConnected := b; ERRORS := ERRORS s;
     messageTracker := messageTracker s; clock := clock s; calls := calls s |}.

Definition with_ERRORS (E : errors) (s : state) : state :=
  {| cfg := cfg s; isConnected := isConnected s; ERRORS := E;
     messageTracker := messageTracker s; clock := clock s; calls := calls s |}.

Definition with_messageTracker (t : tracker) (s : state) : state :=
  {| cfg := cfg s; isConnected := isConnected s; ERRORS := ERRORS s;
     messageTracker := t; clock := clock s; calls := calls s |}.

Definition with_clock (t : Z) (s : state) : state :=
  {| cfg := cfg s; isConnected := isConnected s; ERRORS := ERRORS s;
     messageTracker := messageTracker s; clock := t; calls := calls s |}.

Definition with_calls (l : list action) (s : state) : state :=
  {| cfg := cfg s; isConnected := isConnected s; ERRORS := ERRORS s;
     messageTracker := messageTracker s; clock := clock s; calls := l |}.

(** A computation reads and updates the state and may throw; what it did
    before throwing stays done. *)
Definition M (A : Type) : Type := state -> result A * state.

Definition ret {A} (a : A) : M A := fun s => (Ok a, s).

Definition bind {A B} (m : M A) (k : A -> M B) : M B :=
  fun s =>
    match m s with
    | (Ok a, s') => k a s'
    | (Throw e, s') => (Throw e, s')
    end.

Definition lift {A} (r : result A) : M A := fun s => (r, s).

Notation "x <- m ;; k" := (bind m (fun x => k))
  (at level 61, m at next level, right associativity) : js_scope.
Notation "m ;; k" := (bind m (fun _ => k))
  (at level 61, right associativity) : js_scope.

Definition log (a : list action) : M unit :=
  fun s => (Ok tt, with_calls (calls s ++ a) s).

(** [emitter.emit(evtName, payload)] *)
Definition emit (evtName : string) (payload : obj) : M unit :=
  log [Emit evtName payload].

(** [transportProvider.send(v)] *)
Definition transport_send (v : value) : M unit := log [TransportSend v].

(** [transportProvider.isConnected()] *)
Definition transport_isConnected : M bool := fun s => (Ok (isConnected s), s).

(** ** The message tracker *)

Inductive promise : Type :=
| PromiseSettled (o : outcome)     (* [Promise.reject(...)] *)
| PromiseOf (handle : nat).        (* the promise [register] returns *)

(** Modelled from the spec: [register] of the message tracker, which is not
    part of this repository's sources.  It creates a pending entry for the
    message, with deadline now + timeout, and returns its promise. *)
Definition register (message : value) (filter : filter_t)
    (timeoutRejectWith : obj) (enableCallbacks : value) : M promise :=
  fun s =>
    let t := messageTracker s in
    let e := {| e_handle := next_handle t;
                e_message := message;
                e_filter := filter;
                e_timeoutRejectWith := timeoutRejectWith;
                e_enableCallbacks := enableCallbacks;
                e_deadline := (clock s + messageTimeout (cfg s))%Z |} in
    (Ok (PromiseOf (next_handle t)),
     with_messageTracker
       {| pending := pending t ++ [e];
          settled := settled t;
          next_handle := S (next_handle t) |} s).

(** What one pass over the pending entries leaves behind. *)
Record pass : Type := {
  kept : list entry;
  done : list (nat * outcome);
  emitted : list action;
  matched : bool;
  thrown : option exn
}.

(** Modelled from the spec: the loop of [matchMessage] of the message
    tracker, which is not part of this repository's sources.  Each pending
    entry's filter is called with the inbound message and the entry's own;
    an entry whose filter resolves or rejects is settled and removed.  An
    exception of a filter ends the pass. *)
Fixpoint matchEntries (m : value) (es : list entry) : pass :=
  match es with
  | [] =>
      {| kept := []; done := []; emitted := []; matched := false;
         thrown := None |}
  | e :: es' =>
      match e_filter e m (e_message e) (e_enableCallbacks e) with
      | Throw x =>
          {| kept := e :: es'; done := []; emitted := []; matched := false;
             thrown := Some x |}
      | Ok (acts, None) =>
          let r := matchEntries m es' in
          {| kept := e :: kept r; done := done r;
             emitted := acts ++ emitted r; matched := matched r;
             thrown := thrown r |}
      | Ok (acts, Some o) =>
          let r := matchEntries m es' in
          {| kept := kept r; done := (e_handle e, o) :: done r;
             emitted := acts ++ emitted r; matched := true;
             thrown := thrown r |}
      end
  end.

(** Modelled from the spec: [matchMessage] of the message tracker; it
    answers whether the message was consumed. *)
Definition matchMessage (m : value) : M bool :=
  fun s =>
    let t := messageTracker s in
    let r := matchEntries m (pending t) in
    let s' :=
      with_calls (calls s ++ emitted r)
        (with_messageTracker
           {| pending := kept r;
              settled := settled t ++ done r;
              next_handle := next_handle t |} s) in
    match thrown r with
    | Some x => (Throw x, s')
    | None => (Ok (matched r), s')
    end.

Definition expired (now : Z) (e : entry) : bool := Z.leb (e_deadline e) now.

(** Modelled from the spec: the periodic sweep of the message tracker, which
    is not part of this repository's sources.  Entries past their deadline
    are rejected with their [timeoutRejectWith] and removed. *)
Definition checkMessages : M unit :=
  fun s =>
    let t := messageTracker s in
    let late := filter (expired (clock s)) (pending t) in
    (Ok tt,
     with_messageTracker
       {| pending := filter (fun e => negb (expired (clock s) e)) (pending t);
          settled :=
            settled t
            ++ map (fun e => (e_handle e, Rejected (e_timeoutRejectWith e))) late;
          next_handle := next_handle t |} s).

(** The passing of [dt] milliseconds. *)
Definition elapse (dt : Z) : M unit :=
  fun s => (Ok tt, with_clock (clock s + dt)%Z s).

Fixpoint assoc {A} (h : nat) (l : list (nat * A)) : option A :=
  match l with
  | [] => None
  | (h', a) :: l' => if Nat.eqb h h' then Some a else assoc h l'
  end.

(** The state of a promise: [None] while it is pending. *)
Definition promise_state (s : state) (p : promise) : option outcome :=
  match p with
  | PromiseSettled o => Some o
  | PromiseOf h => assoc h (settled (messageTracker s))
  end.

(** The shared constant a rejection carries, bare or inside a response
    error. *)
Definition carried_error (x : obj) : option error_name :=
  match x with
  | OError e => Some e
  | OElement (JsonRpcResponseError _ (ErrorsRef e)) => Some e
  | _ => None
  end.

(** Its [data] field, read when the rejection is observed in state [s]. *)
Definition carried_data (s : state) (o : outcome) : option value :=
  match o with
  | Rejected x =>
      match carried_error x with
      | Some e => Some (data (ERRORS s) e)
      | None => None
      end
  | Resolved _ => None
  end.

(** ** The client's operations *)

(** What the transport's [connect()] promise does. *)
Inductive transport_reply : Type :=
| ConnectResolves
| ConnectRejects (e : value).

Definition settle (o : outcome) : M outcome :=
  log [Settle o] ;; ret o.

(** [connect], lines 90-108: the executor, then the callback the transport's
    promise selects.  A transport whose [connect()] resolved answers [true]
    to [isConnected()]. *)
Definition connect_executor : M unit :=
  emit "connecting" (OValue VUndefined) ;;
  log [TransportConnect].

Definition connect_then : M outcome :=
  emit "connected" (OValue VUndefined) ;;
  settle (Resolved (OValue VUndefined)).

Definition connect_catch (e : value) : M outcome :=
  settle (Rejected (OValue e)).

Definition connect (t : transport_reply) : M outcome :=
  connect_executor ;;
  match t with
  | ConnectResolves =>
      (fun s => (Ok tt, with_isConnected true s)) ;;
      connect_then
  | ConnectRejects e => connect_catch e
  end.

(** [sendEvent], lines 162-175: the answer is one of the shared constants. *)
Definition sendEvent (evt : value) : M error_name :=
  c <- transport_isConnected ;;
  if c : bool then
    transport_send evt ;;
    ret NO_ERROR
  else
    ret INVALID_STATE_ERR.

Definition payload_of (msg : option jsonrpc) : obj :=
  match msg with
  | Some j => OElement j
  | None => OValue VUndefined
  end.

(** [onDisconnect], lines 229-231. *)
Definition onDisconnect (evt : value) : M unit :=
  emit "disconnected" (OValue evt).

(** [disconnect], lines 239-242. *)
Definition disconnect : M unit :=
  log [TransportDisconnect].

(** ** The constructor, lines 22-39

    The checks on the configuration object and the values the constructor
    reads from it.  [Configured] says that both checks passed and which
    values were read, not that construction completes: what follows in the
    source (registering the two callbacks with the transport provider at
    lines 40-43, creating the tracker) can still fail, and does for a
    provider that is [null] or has no such methods. *)

Inductive construction (A : Type) : Type :=
| Configured (a : A)
| ThrowsError (msg : string)       (* [throw new Error(msg)] *)
| ThrowsNative (e : exn).
Arguments Configured {A} a.
Arguments ThrowsError {A} msg.
Arguments ThrowsNative {A} e.

Record settings : Type := {
  transportProvider : value;
  config_messageCheckInterval : value;
  config_messageTimeout : value
}.

Definition JsonRpcClient_settings (c : value) : construction settings :=
  if (typeof c =? "undefined") || strict_eq c VNull then
    ThrowsError "Missing configuration object"
  else
    match get_prop "transportProvider" c with
    | Throw e => ThrowsNative e
    | Ok tp =>
        if typeof tp =? "undefined" then
          ThrowsError "Required param 'transportProvider' is not defined"
        else
          match
            (has_interval <-? has_prop "messageCheckInterval" c ;
             interval <-?
               (if has_interval : bool
                then get_prop "messageCheckInterval" c else Ok (VNum 1000)) ;
             has_timeout <-? has_prop "messageTimeout" c ;
             timeout <-?
               (if has_timeout : bool
                then get_prop "messageTimeout" c else Ok (VNum 5000)) ;
             provider <-? get_prop "transportProvider" c ;
             Ok {| transportProvider := provider;
                   config_messageCheckInterval := interval;
                   config_messageTimeout := timeout |})
          with
          | Ok st => Configured st
          | Throw e => ThrowsNative e
          end
    end.

(** ** Vocabulary of the statements *)

(** What the filter makes the emitter do when it settles a pending entry. *)
Definition callbacks (enableCallbacks m : value) : list action :=
  if strict_eq enableCallbacks (VBool true)
  then [Emit "message" (OValue m)] else [].

(** Whether the filter's id comparison lets [m] through for [current]. *)
Definition id_matches (m current : value) : bool :=
  match get_prop "id" m, get_prop "id" current with
  | Ok x, Ok y => strict_eq x y
  | _, _ => false
  end.

(** A value on which a member access does not throw. *)
Definition defined (v : value) : Prop := v <> VNull /\ v <> VUndefined.

(** The calls made on the transport provider, among all recorded calls. *)
Definition is_transport_call (x : action) : bool :=
  match x with
  | TransportConnect | TransportSend _ | TransportDisconnect => true
  | Emit _ _ | Settle _ => false
  end.

Definition transport_calls (l : list action) : list action :=
  filter is_transport_call l.

(** ** Histories

    What can happen to a client, one event at a time: the application calls
    one of its methods, the transport provider invokes one of the two
    callbacks or changes what its [isConnected()] answers, the tracker's
    timer fires, or time passes. *)

Inductive call : Type :=
| CallConnect (t : transport_reply)
| CallSendRequest (req enableCallbacks : value)
| CallSendEvent (evt : value)
| CallDisconnect
| InboundMessage (m : value)
| InboundDisconnect (evt : value)
| ConnectionChanges (connected : bool)
| TimerSweep
| TimePasses (dt : Z).

(** The argument of the most recent [sendRequest] of a history. *)
Definition last_request (cs : list call) : option value :=
  fold_left
    (fun acc c =>
       match c with
       | CallSendRequest req _ => Some req
       | _ => acc
       end)
    cs None.

(** Histories in which no request handed to [sendRequest] is [null] or
    [undefined]. *)
Definition sends_defined (cs : list call) : Prop :=
  Forall
    (fun c =>
       match c with
       | CallSendRequest req _ => defined req
       | _ => True
       end)
    cs.

(** Histories in which the clock never goes back. *)
Definition time_moves_forward (cs : list call) : Prop :=
  Forall
    (fun c =>
       match c with
       | TimePasses dt => (0 <= dt)%Z
       | _ => True
       end)
    cs.

(** ** Concrete inputs *)

Definition req1 : value :=
  VObj 1 [("id", VNum 1); ("method", VStr "test"); ("params", VObj 2 [])].

Definition req2 : value :=
  VObj 3 [("id", VNum 2); ("method", VStr "test"); ("params", VObj 4 [])].

(** A JSON-RPC error object, as a peer sends it. *)
Definition method_not_found : value :=
  VObj 20 [("code", VNum (-32601)); ("message", VStr "Method not found")].

(** An object standing for a transport provider; the constructor code
    modelled here only compares it with [undefined]. *)
Definition some_provider : value := VObj 30 [].

(** * The client

    Everything from here on depends on what the JSON-RPC constructors
    accept. *)

Section Client.

Variable lib : library.

(** [JsonRpcError(v)], [JsonRpcRequest(o)] and [JsonRpcEvent(o)]: the element
    when the library accepts the argument, its exception otherwise. *)
Definition JsonRpcError_of (v : value) : result error_obj :=
  if error_accepted lib v then Ok (JsonRpcError v) else Throw LibraryError.

Definition JsonRpcRequest_of (o : props) : result jsonrpc :=
  if request_accepted lib o then Ok (JsonRpcRequest o) else Throw LibraryError.

Definition JsonRpcEvent_of (o : props) : result jsonrpc :=
  if event_accepted lib o then Ok (JsonRpcEvent o) else Throw LibraryError.

(** ** Classification of an unmatched inbound message

    The body of the [if (typeof m === "object")] statement of [onMessage],
    lines 183-221: the value left in [msg], or the exception that ends
    [onMessage] before it emits. *)
Definition classify (m : value) : result (option jsonrpc) :=
  let rObj : props := [] in
  if typeof m =? "object" then
    has_id <-? has_prop "id" m ;
    if has_id : bool then
      m_id <-? get_prop "id" m ;
      let rObj := set_prop "id" m_id rObj in
      has_result <-? has_prop "result" m ;
      '(rObj, msg) <-?
        (if has_result : bool then
           m_result <-? get_prop "result" m ;
           let rObj := set_prop "result" m_result rObj in
           Ok (rObj, Some (JsonRpcResponseResult rObj))
         else Ok (rObj, None)) ;
      has_error <-? has_prop "error" m ;
      msg <-?
        (if has_error : bool then
           m_id <-? get_prop "id" m ;
           m_error <-? get_prop "error" m ;
           error <-? JsonRpcError_of m_error ;
           Ok (Some (JsonRpcResponseError m_id error))
         else Ok msg) ;
      has_method <-? has_prop "method" m ;
      if has_method : bool then
        m_method <-? get_prop "method" m ;
        let rObj := set_prop "method" m_method rObj in
        m_params <-? get_prop "params" m ;
        let rObj := set_prop "params" m_params rObj in
        request <-? JsonRpcRequest_of rObj ;
        Ok (Some request)
      else Ok msg
    else
      m_method <-? get_prop "method" m ;
      let rObj := set_prop "method" m_method rObj in
      m_params <-? get_prop "params" m ;
      let rObj := set_prop "params" m_params rObj in
      event <-? JsonRpcEvent_of rObj ;
      Ok (Some event)
  else Ok None.

(** ** [filterMessage], lines 256-299

    Called by the tracker with [o.message], [o.current] and
    [o.params.enableCallbacks].  The result lists the emitter calls made and
    says whether [o.resolve] or [o.reject] was called, and with what. *)
Definition filterMessage (message current enableCallbacks : value)
  : result (list action * option outcome) :=
  let m := message in
  if typeof m =? "undefined" then Ok ([], None)
  else
    m_id <-? get_prop "id" m ;
    current_id <-? get_prop "id" current ;
    if negb (strict_eq m_id current_id) then Ok ([], None)
    else
      let msg : option jsonrpc := None in
      let err := false in
      has_result <-? has_prop "result" m ;
      msg <-?
        (if has_result : bool then
           m_id <-? get_prop "id" m ;
           m_result <-? get_prop "result" m ;
           Ok (Some (JsonRpcResponseResult [("id", m_id); ("result", m_result)]))
         else Ok msg) ;
      has_error <-? has_prop "error" m ;
      '(err, msg) <-?
        (if has_error : bool then
           m_id <-? get_prop "id" m ;
           m_error <-? get_prop "error" m ;
           error <-? JsonRpcError_of m_error ;
           Ok (true, Some (JsonRpcResponseError m_id error))
         else Ok (err, msg)) ;
      match msg with
      | Some msg =>
          let emitted :=
            if strict_eq enableCallbacks (VBool true)
            then [Emit "message" (OValue m)] else [] in
          if err : bool then Ok (emitted, Some (Rejected (OElement msg)))
          else Ok (emitted, Some (Resolved (OElement msg)))
      | None => Ok ([], None)
      end.

(** [sendRequest], lines 121-150. *)
Definition sendRequest (req enableCallbacks : value) : M promise :=
  let rejectWith := TIMEOUT_EXCEEDED in
  (fun s => (Ok tt, with_ERRORS (set_data rejectWith req (ERRORS s)) s)) ;;
  c <- transport_isConnected ;;
  if c : bool then
    retPromise <- register req filterMessage (OError rejectWith) enableCallbacks ;;
    transport_send req ;;
    ret retPromise
  else
    req_id <- lift (get_prop "id" req) ;;
    ret (PromiseSettled
           (Rejected (OElement
              (JsonRpcResponseError req_id (ErrorsRef INVALID_STATE_ERR))))).

(** [onMessage], lines 181-227. *)
Definition onMessage (m : value) : M unit :=
  consumed <- matchMessage m ;;
  if negb consumed then
    msg <- lift (classify m) ;;
    emit "message" (payload_of msg)
  else ret tt.

(** One event of a history. *)
Definition step (c : call) (s : state) : state :=
  match c with
  | CallConnect t => snd (connect t s)
  | CallSendRequest req enableCallbacks => snd (sendRequest req enableCallbacks s)
  | CallSendEvent evt => snd (sendEvent evt s)
  | CallDisconnect => snd (disconnect s)
  | InboundMessage m => snd (onMessage m s)
  | InboundDisconnect evt => snd (onDisconnect evt s)
  | ConnectionChanges connected => with_isConnected connected s
  | TimerSweep => snd (checkMessages s)
  | TimePasses dt => snd (elapse dt s)
  end.

Definition run (cs : list call) (s : state) : state :=
  fold_left (fun s c => step c s) cs s.

(** The entry [sendRequest] hands to the tracker in state [s]. *)
Definition registered (req enableCallbacks : value) (s : state) : entry :=
  {| e_handle := next_handle (messageTracker s);
     e_message := req;
     e_filter := filterMessage;
     e_timeoutRejectWith := OError TIMEOUT_EXCEEDED;
     e_enableCallbacks := enableCallbacks;
     e_deadline := (clock s + messageTimeout (cfg s))%Z |}.

(** What the tracker's entries have in common in every state the client can
    reach when it is given objects as requests: handles are below the next
    one, the filter is [filterMessage], the message is an object. *)
Definition entry_ok (e : entry) : Prop :=
  e_filter e = filterMessage /\ exists a ps, e_message e = VObj a ps.

Definition tracker_ok (t : tracker) : Prop :=
  Forall (fun e => e_handle e < next_handle t) (pending t) /\
  Forall (fun p => fst p < next_handle t) (settled t) /\
  Forall entry_ok (pending t).

(** An entry of [sendRequest] whose request is not [null] or [undefined]. *)
Definition entry_defined (e : entry) : Prop :=
  e_filter e = filterMessage /\ defined (e_message e).

(** What holds of the tracker in every state a fresh client reaches: a
    handle belongs to at most one pending entry, is below the next one to be
    handed out, and is not settled while it is pending; every filter is
    [filterMessage]. *)
Definition sound (t : tracker) : Prop :=
  NoDup (map e_handle (pending t)) /\
  Forall (fun e => e_handle e < next_handle t) (pending t) /\
  Forall (fun p => fst p < next_handle t) (settled t) /\
  Forall (fun e => assoc (e_handle e) (settled t) = None) (pending t) /\
  Forall (fun e => e_filter e = filterMessage) (pending t).

(** Two requests sent one after the other on a connected transport, left
    unanswered, and a sweep after [dt] milliseconds. *)
Definition two_unanswered_requests (dt : Z) : M (promise * promise) :=
  p1 <- sendRequest req1 VUndefined ;;
  p2 <- sendRequest req2 VUndefined ;;
  elapse dt ;;
  checkMessages ;;
  ret (p1, p2).

(** What holds, from its registration on, of the request with handle [h]
    and deadline [D]: handles handed out later are larger, a pending entry
    with this handle has this deadline, every filter is [filterMessage], and
    a timeout rejection of the request was not recorded before [D]. *)
Definition awaits (h : nat) (D : Z) (s : state) : Prop :=
  h < next_handle (messageTracker s) /\
  Forall (fun e => e_handle e = h -> e_deadline e = D)
         (pending (messageTracker s)) /\
  Forall (fun e => e_filter e = filterMessage) (pending (messageTracker s)) /\
  (assoc h (settled (messageTracker s)) =
     Some (Rejected (OError TIMEOUT_EXCEEDED)) ->
   (D <= clock s)%Z).

(** * Properties *)

(** ** Classification *)

Section Classification.

Variables (a : nat) (ps : props).

(** On an object, the classifier is a case analysis on which of [id],
    [error], [method] and [result] are present, and on what the library
    accepts: a rejected error ends it before [method] is looked at; then a
    present [method] wins, then [error], then [result]. *)
Lemma classify_object :
  classify (VObj a ps) =
  match lookup "id" ps with
  | None =>
      event <-?
        JsonRpcEvent_of
          [("method", field "method" ps); ("params", field "params" ps)] ;
      Ok (Some event)
  | Some i =>
      answer <-?
        match lookup "error" ps with
        | Some e =>
            error <-? JsonRpcError_of e ;
            Ok (Some (JsonRpcResponseError i error))
        | None =>
            match lookup "result" ps with
            | Some r => Ok (Some (JsonRpcResponseResult [("id", i); ("result", r)]))
            | None => Ok None
            end
        end ;
      match lookup "method" ps with
      | Some mt =>
          request <-?
            JsonRpcRequest_of
              (("id", i)
               :: match lookup "result" ps with
                  | Some r => [("result", r)]
                  | None => []
                  end
               ++ [("method", mt); ("params", field "params" ps)]) ;
          Ok (Some request)
      | None => Ok answer
      end
  end.
Proof.
  unfold classify; cbn; unfold field.
  destruct (lookup "id" ps) as [i|]; cbn; [|reflexivity].
  destruct (lookup "result" ps) as [r|]; cbn;
    destruct (lookup "error" ps) as [e|]; cbn;
    try destruct (JsonRpcError_of e); cbn;
    destruct (lookup "method" ps) as [mt|]; cbn; reflexivity.
Qed.

End Classification.

(** What is not an object is left unclassified. *)
Lemma classify_not_object (m : value) :
  typeof m <> "object" -> classify m = Ok None.
Proof.
  intros Hty. destruct m; cbn in *; try reflexivity; congruence.
Qed.

(** C2, amended: for every inbound object that has an [id], an [error] that
    [JsonRpcError] rejects ends the classification with the constructor's
    exception before [method] is looked at.  Otherwise the [method] field is
    consulted whether or not [result] or [error] is present, and last: when
    it is present, [JsonRpcRequest] is called on id, the result when there
    is one, method and params, and what it returns replaces the response
    built before (its exception propagates when it rejects).  Only without
    [method] is the message a ResponseError (when [error] is present), else
    a ResponseResult (when [result] is present), else nothing. *)
Theorem C2_method_is_consulted_last_and_wins (a : nat) (ps : props) (i : value)
    (Hid : lookup "id" ps = Some i) :
  (forall e,
     lookup "error" ps = Some e ->
     error_accepted lib e = false ->
     classify (VObj a ps) = Throw LibraryError) /\
  ((forall e, lookup "error" ps = Some e -> error_accepted lib e = true) ->
   (forall mt,
      lookup "method" ps = Some mt ->
      let rObj :=
        ("id", i)
        :: match lookup "result" ps with
           | Some r => [("result", r)]
           | None => []
           end
        ++ [("method", mt); ("params", field "params" ps)] in
      classify (VObj a ps) =
        if request_accepted lib rObj
        then Ok (Some (JsonRpcRequest rObj)) else Throw LibraryError) /\
   (lookup "method" ps = None ->
      classify (VObj a ps) =
        Ok match lookup "error" ps with
           | Some e => Some (JsonRpcResponseError i (JsonRpcError e))
           | None =>
               match lookup "result" ps with
               | Some r => Some (JsonRpcResponseResult [("id", i); ("result", r)])
               | None => None
               end
           end)).
Proof.
  rewrite classify_object, Hid. split.
  - intros e He Hrej. rewrite He. unfold JsonRpcError_of. rewrite Hrej.
    reflexivity.
  - intros Hacc. split.
    + intros mt Hmt rObj. subst rObj. rewrite Hmt.
      unfold JsonRpcRequest_of, JsonRpcError_of.
      destruct (lookup "error" ps) as [e|].
      * rewrite (Hacc e eq_refl). cbn.
        destruct (request_accepted lib _); reflexivity.
      * destruct (lookup "result" ps); cbn;
          destruct (request_accepted lib _); reflexivity.
    + intros Hmt. rewrite Hmt. unfold JsonRpcError_of.
      destruct (lookup "error" ps) as [e|].
      * rewrite (Hacc e eq_refl). reflexivity.
      * destruct (lookup "result" ps); reflexivity.
Qed.

(** On an object, the filter compares ids, then settles on [error] before
    [result]; an error the library rejects ends it with the constructor's
    exception. *)
Lemma filterMessage_object (a : nat) (ps : props) (current ec ci : value) :
  get_prop "id" current = Ok ci ->
  filterMessage (VObj a ps) current ec =
  if strict_eq (field "id" ps) ci then
    match lookup "error" ps with
    | Some e =>
        error <-? JsonRpcError_of e ;
        Ok (callbacks ec (VObj a ps),
            Some (Rejected (OElement
                    (JsonRpcResponseError (field "id" ps) error))))
    | None =>
        match lookup "result" ps with
        | Some r =>
            Ok (callbacks ec (VObj a ps),
                Some (Resolved (OElement
                        (JsonRpcResponseResult
                           [("id", field "id" ps); ("result", r)]))))
        | None => Ok ([], None)
        end
    end
  else Ok ([], None).
Proof.
  intros Hci. unfold filterMessage, callbacks; cbn. rewrite Hci; cbn.
  remember (field "id" ps) as fid eqn:Hfid.
  destruct (strict_eq fid ci); cbn; [|reflexivity].
  unfold field.
  destruct (lookup "result" ps) as [r|]; cbn;
    destruct (lookup "error" ps) as [e|]; cbn;
    try destruct (JsonRpcError_of e); cbn;
    destruct (strict_eq ec (VBool true)); reflexivity.
Qed.

(** C5, amended: an inbound object with an id, a result and an error, and
    no method, is a ResponseError whenever [JsonRpcError] accepts the error,
    both for the classifier of unmatched messages and for the filter of a
    pending request with the same id, which rejects with it.  When
    [JsonRpcError] rejects the error, classifier and filter end with the
    constructor's exception instead and yield no element at all. *)
Theorem C5_error_overrides_result (a : nat) (ps : props) (i r e : value)
    (Hid : lookup "id" ps = Some i)
    (Hresult : lookup "result" ps = Some r)
    (Herror : lookup "error" ps = Some e)
    (Hmethod : lookup "method" ps = None) :
  (error_accepted lib e = true ->
   classify (VObj a ps) = Ok (Some (JsonRpcResponseError i (JsonRpcError e))) /\
   forall current ec ci,
     get_prop "id" current = Ok ci ->
     strict_eq i ci = true ->
     filterMessage (VObj a ps) current ec =
       Ok (callbacks ec (VObj a ps),
           Some (Rejected (OElement (JsonRpcResponseError i (JsonRpcError e)))))) /\
  (error_accepted lib e = false ->
   classify (VObj a ps) = Throw LibraryError /\
   forall current ec ci,
     get_prop "id" current = Ok ci ->
     strict_eq i ci = true ->
     filterMessage (VObj a ps) current ec = Throw LibraryError).
Proof.
  split; intros Hlib; split.
  - rewrite classify_object, Hid, Hmethod, Herror.
    unfold JsonRpcError_of. rewrite Hlib. reflexivity.
  - intros current ec ci Hci Heq.
    rewrite (filterMessage_object a ps current ec ci Hci).
    unfold field. rewrite Hid, Heq, Herror.
    unfold JsonRpcError_of. rewrite Hlib. reflexivity.
  - rewrite classify_object, Hid, Hmethod, Herror.
    unfold JsonRpcError_of. rewrite Hlib. reflexivity.
  - intros current ec ci Hci Heq.
    rewrite (filterMessage_object a ps current ec ci Hci).
    unfold field. rewrite Hid, Heq, Herror.
    unfold JsonRpcError_of. rewrite Hlib. reflexivity.
Qed.

(** C6, the failing input: [typeof null] is ["object"], so the guard of
    [onMessage] lets [null] through to ["id" in m], which throws.  With no
    pending request the exception leaves [onMessage] before anything is
    emitted. *)
Theorem C6_null_is_not_classified :
  typeof VNull = "object" /\
  classify VNull = Throw TypeError /\
  onMessage VNull (initial default_config) =
    (Throw TypeError, initial default_config).
Proof.
  repeat split.
Qed.

(** C3, the failing inputs: a string, and an object with an id and nothing
    else, match no pending request and are classified to nothing; still
    [onMessage] calls the emitter, with [undefined] as the payload, because
    the [emit] at line 223 is not guarded by [msg !== undefined] the way the
    one in [filterMessage] is. *)
Theorem C3_unclassified_message_is_still_emitted :
  let s := initial default_config in
  classify (VStr "ping") = Ok None /\
  onMessage (VStr "ping") s =
    (Ok tt, with_calls [Emit "message" (OValue VUndefined)] s) /\
  classify (VObj 7 [("id", VNum 1)]) = Ok None /\
  onMessage (VObj 7 [("id", VNum 1)]) s =
    (Ok tt, with_calls [Emit "message" (OValue VUndefined)] s).
Proof.
  repeat split.
Qed.

(** ** Sending *)

(** C9: [sendEvent] answers with one of the shared constants, never with a
    promise and never by throwing: NO_ERROR after handing the event to the
    transport's [send] when connected, INVALID_STATE_ERR with no call at all
    when not. *)
Theorem C9_sendEvent_answers_with_a_constant (evt : value) (s : state) :
  sendEvent evt s =
    if isConnected s
    then (Ok NO_ERROR, with_calls (calls s ++ [TransportSend evt]) s)
    else (Ok INVALID_STATE_ERR, s).
Proof.
  unfold sendEvent, bind, transport_isConnected.
  destruct (isConnected s); reflexivity.
Qed.

Lemma sendRequest_connected (req ec : value) (s : state) :
  isConnected s = true ->
  sendRequest req ec s =
    (Ok (PromiseOf (next_handle (messageTracker s))),
     with_calls (calls s ++ [TransportSend req])
       (with_messageTracker
          {| pending := pending (messageTracker s) ++ [registered req ec s];
             settled := settled (messageTracker s);
             next_handle := S (next_handle (messageTracker s)) |}
          (with_ERRORS (set_data TIMEOUT_EXCEEDED req (ERRORS s)) s))).
Proof.
  intros Hc. unfold sendRequest, bind, transport_isConnected; cbn.
  rewrite Hc. reflexivity.
Qed.

Lemma sendRequest_disconnected (req ec : value) (s : state) :
  isConnected s = false ->
  sendRequest req ec s =
    (match get_prop "id" req with
     | Ok req_id =>
         Ok (PromiseSettled
               (Rejected (OElement
                  (JsonRpcResponseError req_id (ErrorsRef INVALID_STATE_ERR)))))
     | Throw x => Throw x
     end,
     with_ERRORS (set_data TIMEOUT_EXCEEDED req (ERRORS s)) s).
Proof.
  intros Hc. unfold sendRequest, bind, transport_isConnected, lift; cbn.
  rewrite Hc. destruct (get_prop "id" req); reflexivity.
Qed.

(** Every call leaves its request in the [data] of TIMEOUT_EXCEEDED. *)
Lemma sendRequest_sets_data (req ec : value) (s : state) :
  data (ERRORS (snd (sendRequest req ec s))) TIMEOUT_EXCEEDED = req.
Proof.
  destruct (isConnected s) eqn:Hc.
  - rewrite sendRequest_connected by assumption. reflexivity.
  - rewrite sendRequest_disconnected by assumption. reflexivity.
Qed.

Lemma sendRequest_keeps_pending (req ec : value) (s : state) (e : entry) :
  In e (pending (messageTracker s)) ->
  In e (pending (messageTracker (snd (sendRequest req ec s)))).
Proof.
  intros Hin. destruct (isConnected s) eqn:Hc.
  - rewrite sendRequest_connected by assumption. cbn.
    apply in_or_app. left. exact Hin.
  - rewrite sendRequest_disconnected by assumption. exact Hin.
Qed.

(** C1, amended: while the transport is not connected, [sendRequest(req)]
    answers at once with a promise rejected with a ResponseError that has
    the request's id and wraps the INVALID_STATE_ERR constant.  The call
    does not touch that constant's [data] (it is [undefined] on a fresh
    client); the request is stored in the [data] of TIMEOUT_EXCEEDED.
    Nothing is registered with the tracker and nothing is sent. *)
Theorem C1_disconnected_sendRequest_rejects_at_once
    (s : state) (a : nat) (ps : props) (ec : value)
    (Hdisconnected : isConnected s = false) :
  let req := VObj a ps in
  let s' := snd (sendRequest req ec s) in
  let rejection :=
    Rejected (OElement
      (JsonRpcResponseError (field "id" ps) (ErrorsRef INVALID_STATE_ERR))) in
  fst (sendRequest req ec s) = Ok (PromiseSettled rejection) /\
  carried_data s' rejection = Some (data (ERRORS s) INVALID_STATE_ERR) /\
  (ERRORS s = ERRORS_initial -> carried_data s' rejection = Some VUndefined) /\
  data (ERRORS s') TIMEOUT_EXCEEDED = req /\
  messageTracker s' = messageTracker s /\
  calls s' = calls s.
Proof.
  cbv zeta. rewrite sendRequest_disconnected by assumption. cbn.
  repeat split. intros ->. reflexivity.
Qed.

(** C10: every call of [sendRequest], connected or not, leaves its request
    in the [data] of the shared TIMEOUT_EXCEEDED constant.  So once
    [sendRequest(r1)] has a pending entry and [sendRequest(r2)] has been
    called, whatever the transport's state then, the constant with which
    r1's timeout will reject carries r2. *)
Theorem C10_pending_timeout_carries_latest_request
    (s s1 : state) (r1 ec1 : value) (h : nat)
    (Hpending : sendRequest r1 ec1 s = (Ok (PromiseOf h), s1))
    (r2 ec2 : value) (b : bool) :
  let s2 := snd (sendRequest r2 ec2 (with_isConnected b s1)) in
  (forall req ec s0,
     data (ERRORS (snd (sendRequest req ec s0))) TIMEOUT_EXCEEDED = req) /\
  data (ERRORS s1) TIMEOUT_EXCEEDED = r1 /\
  data (ERRORS s2) TIMEOUT_EXCEEDED = r2 /\
  exists e,
    In e (pending (messageTracker s2)) /\
    e_handle e = h /\
    e_message e = r1 /\
    e_timeoutRejectWith e = OError TIMEOUT_EXCEEDED /\
    carried_data s2 (Rejected (e_timeoutRejectWith e)) = Some r2.
Proof.
  intros s2.
  assert (Hs1 : s1 = snd (sendRequest r1 ec1 s)) by (rewrite Hpending; reflexivity).
  split; [exact sendRequest_sets_data|].
  split; [rewrite Hs1; apply sendRequest_sets_data|].
  split; [apply sendRequest_sets_data|].
  destruct (isConnected s) eqn:Hc.
  - rewrite sendRequest_connected in Hpending by assumption.
    injection Hpending as Hh Hst.
    exists (registered r1 ec1 s). split; [|split; [|split; [|split]]].
    + apply sendRequest_keeps_pending. rewrite <- Hst. cbn.
      apply in_or_app. right. left. reflexivity.
    + exact Hh.
    + reflexivity.
    + reflexivity.
    + cbn. f_equal. apply sendRequest_sets_data.
  - rewrite sendRequest_disconnected in Hpending by assumption.
    destruct (get_prop "id" r1); discriminate.
Qed.

(** ** Connecting *)

(** C8: [connect()] emits [connecting] first, before the transport is
    asked.  When the transport's promise resolves, [connected] is emitted and
    then the result resolves; when it rejects with [e], the result rejects
    with [e] itself and no further event is emitted. *)
Theorem C8_connect_lifecycle (s : state) :
  connect_executor s =
    (Ok tt,
     with_calls
       (calls s ++ [Emit "connecting" (OValue VUndefined); TransportConnect]) s) /\
  connect ConnectResolves s =
    (Ok (Resolved (OValue VUndefined)),
     with_calls
       (calls s ++ [Emit "connecting" (OValue VUndefined); TransportConnect;
                    Emit "connected" (OValue VUndefined);
                    Settle (Resolved (OValue VUndefined))])
       (with_isConnected true s)) /\
  forall e,
    connect (ConnectRejects e) s =
      (Ok (Rejected (OValue e)),
       with_calls
         (calls s ++ [Emit "connecting" (OValue VUndefined); TransportConnect;
                      Settle (Rejected (OValue e))]) s).
Proof.
  split; [|split; [|intros e]];
    unfold connect, connect_executor, connect_then, connect_catch, settle,
      emit, log, bind, ret, with_calls, with_isConnected; cbn;
    rewrite <- ?app_assoc; reflexivity.
Qed.

(** ** Correlation *)

(** ** Correlation *)

Lemma strict_eq_refl (v : value) : strict_eq v v = true.
Proof.
  destruct v; cbn; auto using Bool.eqb_reflx, Z.eqb_refl, String.eqb_refl,
    Nat.eqb_refl.
Qed.

Lemma assoc_app {A} (h : nat) (l1 l2 : list (nat * A)) :
  assoc h (l1 ++ l2) =
    match assoc h l1 with
    | Some o => Some o
    | None => assoc h l2
    end.
Proof.
  induction l1 as [|[h' o] l1 IH]; cbn; [reflexivity|].
  destruct (Nat.eqb h h'); [reflexivity|exact IH].
Qed.

Lemma assoc_fresh {A} (h : nat) (l : list (nat * A)) :
  Forall (fun p => fst p < h) l -> assoc h l = None.
Proof.
  induction 1 as [|[h' o] l Hlt _ IH]; cbn in *; [reflexivity|].
  destruct (Nat.eqb_spec h h'); [lia|exact IH].
Qed.

(** ** Timeouts under any interleaving *)

Lemma assoc_In {A} (h : nat) (l : list (nat * A)) (o : A) :
  assoc h l = Some o -> In (h, o) l.
Proof.
  induction l as [|[h' o'] l IH]; cbn; [discriminate|].
  destruct (Nat.eqb_spec h h') as [->|_].
  - intros H. injection H as ->. left. reflexivity.
  - intros H. right. exact (IH H).
Qed.

Lemma assoc_absent {A} (h : nat) (l : list (nat * A)) :
  (forall o, ~ In (h, o) l) -> assoc h l = None.
Proof.
  intros H. destruct (assoc h l) as [o|] eqn:E; [|reflexivity].
  exfalso. exact (H o (assoc_In _ _ _ E)).
Qed.

Lemma assoc_unique {A} (h : nat) (l : list (nat * A)) (o : A) :
  In (h, o) l ->
  (forall o', In (h, o') l -> o' = o) ->
  assoc h l = Some o.
Proof.
  induction l as [|[h' o'] l IH]; cbn; [contradiction|].
  intros Hin Hall. destruct (Nat.eqb_spec h h') as [<-|Hne].
  - f_equal. apply Hall. left. reflexivity.
  - destruct Hin as [Heq|Hin]; [congruence|].
    apply IH; [exact Hin|]. intros o'' H. apply Hall. right. exact H.
Qed.

Lemma handle_injective (es : list entry) (e e' : entry) :
  NoDup (map e_handle es) ->
  In e es -> In e' es -> e_handle e = e_handle e' -> e = e'.
Proof.
  induction es as [|e0 es IH]; cbn; [contradiction|].
  intros Hnd He He' Hh. apply NoDup_cons_iff in Hnd. destruct Hnd as [Hn Hnd].
  destruct He as [<-|He], He' as [<-|He']; auto.
  - exfalso. apply Hn. rewrite Hh. apply in_map. exact He'.
  - exfalso. apply Hn. rewrite <- Hh. apply in_map. exact He.
Qed.

Lemma get_prop_defined (k : string) (v : value) :
  defined v -> exists x, get_prop k v = Ok x.
Proof.
  intros [Hn Hu]. destruct v; cbn; try (eexists; reflexivity); contradiction.
Qed.


Lemma filterMessage_other_id (m current ec : value) :
  id_matches m current = false ->
  forall acts o, filterMessage m current ec <> Ok (acts, Some o).
Proof.
  unfold id_matches, filterMessage. intros Hid acts o.
  destruct (typeof m =? "undefined"); [discriminate|].
  destruct (get_prop "id" m) as [x|]; cbn; [|discriminate].
  destruct (get_prop "id" current) as [y|]; cbn; [|discriminate].
  rewrite Hid. cbn. discriminate.
Qed.

Section MatchEntries.

Variable m : value.


(** A settled handle belongs to an entry whose filter resolved or
    rejected. *)
Lemma done_from_filter (es : list entry) (h : nat) (o : outcome) :
  In (h, o) (done (matchEntries m es)) ->
  exists e acts,
    In e es /\ e_handle e = h /\
    e_filter e m (e_message e) (e_enableCallbacks e) = Ok (acts, Some o).
Proof.
  induction es as [|e es IH]; cbn; [contradiction|].
  destruct (e_filter e m (e_message e) (e_enableCallbacks e))
    as [[acts [o'|]]|x] eqn:Hf; cbn.
  - intros [Heq|Hin].
    + injection Heq as <- <-. exists e, acts. auto.
    + destruct (IH Hin) as (e' & acts' & ? & ? & ?). exists e', acts'. auto.
  - intros Hin.
    destruct (IH Hin) as (e' & acts' & ? & ? & ?). exists e', acts'. auto.
  - contradiction.
Qed.

(** An entry leaves the pending list only when its filter resolved or
    rejected. *)
Lemma kept_unless_settled (es : list entry) (e : entry) :
  In e es ->
  (forall acts o,
     e_filter e m (e_message e) (e_enableCallbacks e) <> Ok (acts, Some o)) ->
  In e (kept (matchEntries m es)).
Proof.
  intros Hin Hno. induction es as [|e' es IH]; cbn; [contradiction|].
  destruct (e_filter e' m (e_message e') (e_enableCallbacks e'))
    as [[acts [o'|]]|x] eqn:Hf; cbn.
  - destruct Hin as [->|Hin]; [exfalso; exact (Hno _ _ Hf)|auto].
  - destruct Hin as [->|Hin]; [left; reflexivity|right; auto].
  - exact Hin.
Qed.

Lemma done_below (es : list entry) (n : nat) :
  Forall (fun e => e_handle e < n) es ->
  Forall (fun p => fst p < n) (done (matchEntries m es)).
Proof.
  intros Hlt. apply Forall_forall. intros [h o] Hin.
  destruct (done_from_filter es h o Hin) as (e & acts & He & <- & _).
  rewrite Forall_forall in Hlt. exact (Hlt e He).
Qed.

End MatchEntries.

Lemma matchEntries_settles (m : value) (es : list entry) (e : entry)
    (acts : list action) (o : outcome) :
  thrown (matchEntries m es) = None ->
  In e es ->
  e_filter e m (e_message e) (e_enableCallbacks e) = Ok (acts, Some o) ->
  In (e_handle e, o) (done (matchEntries m es)) /\
  matched (matchEntries m es) = true.
Proof.
  induction es as [|e' es IH]; cbn; [contradiction|].
  destruct (e_filter e' m (e_message e') (e_enableCallbacks e'))
    as [[acts' [o'|]]|x] eqn:Hf; cbn; intros Hth Hin He.
  - split; [|reflexivity]. destruct Hin as [->|Hin].
    + left. congruence.
    + right. apply (IH Hth Hin He).
  - destruct Hin as [->|Hin]; [congruence|]. apply (IH Hth Hin He).
  - discriminate.
Qed.

Lemma matchEntries_throws (m : value) (es : list entry) (x : exn) :
  Forall (fun e =>
            e_filter e m (e_message e) (e_enableCallbacks e) = Ok ([], None) \/
            e_filter e m (e_message e) (e_enableCallbacks e) = Throw x)
         es ->
  Exists (fun e => e_filter e m (e_message e) (e_enableCallbacks e) = Throw x)
         es ->
  matchEntries m es =
    {| kept := es; done := []; emitted := []; matched := false;
       thrown := Some x |}.
Proof.
  induction 1 as [|e es [He|He] _ IH]; intros Hex.
  - inversion Hex.
  - cbn. rewrite He. inversion Hex as [? ? Hthrow|? ? Hrest]; subst.
    + congruence.
    + rewrite (IH Hrest). reflexivity.
  - cbn. rewrite He. reflexivity.
Qed.

(** An inbound object whose error, if it has one, the library accepts never
    makes the filter throw on requests that are not [null] or [undefined]. *)
Lemma matchEntries_returns (b : nat) (qs : props) (es : list entry) :
  (forall E, lookup "error" qs = Some E -> error_accepted lib E = true) ->
  Forall entry_defined es ->
  thrown (matchEntries (VObj b qs) es) = None.
Proof.
  intros Hacc. induction 1 as [|e es [Hf Hd] _ IH]; cbn; [reflexivity|].
  destruct (get_prop_defined "id" _ Hd) as [ci Hci].
  rewrite Hf, (filterMessage_object b qs _ (e_enableCallbacks e) ci Hci).
  destruct (strict_eq (field "id" qs) ci); [|exact IH].
  destruct (lookup "error" qs) as [E|].
  - unfold JsonRpcError_of. rewrite (Hacc E eq_refl). exact IH.
  - destruct (lookup "result" qs); exact IH.
Qed.


(** The tracker after [onMessage], whatever way [onMessage] ends. *)
Lemma onMessage_tracker (m : value) (s : state) :
  messageTracker (snd (onMessage m s)) =
    {| pending := kept (matchEntries m (pending (messageTracker s)));
       settled :=
         settled (messageTracker s)
         ++ done (matchEntries m (pending (messageTracker s)));
       next_handle := next_handle (messageTracker s) |}.
Proof.
  unfold onMessage, bind, matchMessage, lift, emit, log, ret.
  destruct (thrown (matchEntries m (pending (messageTracker s))));
    [reflexivity|].
  destruct (matched (matchEntries m (pending (messageTracker s)))); cbn;
    [reflexivity|].
  destruct (classify m); reflexivity.
Qed.

Lemma onMessage_consumed (m : value) (s : state) :
  thrown (matchEntries m (pending (messageTracker s))) = None ->
  matched (matchEntries m (pending (messageTracker s))) = true ->
  fst (onMessage m s) = Ok tt.
Proof.
  intros Hth Hm. unfold onMessage, bind, matchMessage.
  rewrite Hth, Hm. reflexivity.
Qed.

(** ** Inbound messages *)

Lemma onMessage_unfold (m : value) (s : state) :
  onMessage m s =
    let t := messageTracker s in
    let r := matchEntries m (pending t) in
    let s' :=
      with_calls (calls s ++ emitted r)
        (with_messageTracker
           {| pending := kept r;
              settled := settled t ++ done r;
              next_handle := next_handle t |} s) in
    match thrown r with
    | Some x => (Throw x, s')
    | None =>
        if matched r then (Ok tt, s')
        else
          match classify m with
          | Ok msg =>
              (Ok tt,
               with_calls (calls s' ++ [Emit "message" (payload_of msg)]) s')
          | Throw x => (Throw x, s')
          end
    end.
Proof.
  unfold onMessage, bind, matchMessage, lift, emit, log, ret. cbv zeta.
  destruct (thrown (matchEntries m (pending (messageTracker s))));
    [reflexivity|].
  destruct (matched (matchEntries m (pending (messageTracker s)))); cbn;
    [reflexivity|].
  destruct (classify m); reflexivity.
Qed.

(** A pass that settles nothing leaves the state as it was. *)
Lemma untouched (s : state) :
  with_calls (calls s ++ [])
    (with_messageTracker
       {| pending := pending (messageTracker s);
          settled := settled (messageTracker s) ++ [];
          next_handle := next_handle (messageTracker s) |} s) = s.
Proof.
  destruct s as [c i E [p st n] k l]. unfold with_calls, with_messageTracker.
  cbn. rewrite !app_nil_r. reflexivity.
Qed.

Section Reply.

Variables (a b : nat) (ps qs : props) (ec : value).
Hypothesis Hid : lookup "id" qs = Some (field "id" ps).

Lemma reply_id : field "id" qs = field "id" ps.
Proof. unfold field at 1. rewrite Hid. reflexivity. Qed.

Lemma filterMessage_result_reply (R : value) :
  lookup "result" qs = Some R ->
  lookup "error" qs = None ->
  filterMessage (VObj b qs) (VObj a ps) ec =
    Ok (callbacks ec (VObj b qs),
        Some (Resolved (OElement
                (JsonRpcResponseResult [("id", field "id" ps); ("result", R)])))).
Proof.
  intros Hr He.
  rewrite (filterMessage_object b qs (VObj a ps) ec (field "id" ps) eq_refl).
  rewrite reply_id, strict_eq_refl, He, Hr. reflexivity.
Qed.

Lemma filterMessage_error_reply (E : value) :
  lookup "error" qs = Some E ->
  filterMessage (VObj b qs) (VObj a ps) ec =
    if error_accepted lib E then
      Ok (callbacks ec (VObj b qs),
          Some (Rejected (OElement
                  (JsonRpcResponseError (field "id" ps) (JsonRpcError E)))))
    else Throw LibraryError.
Proof.
  intros He.
  rewrite (filterMessage_object b qs (VObj a ps) ec (field "id" ps) eq_refl).
  rewrite reply_id, strict_eq_refl, He. unfold JsonRpcError_of.
  destruct (error_accepted lib E); reflexivity.
Qed.

End Reply.

(** A filter that settled on an object had its error, if any, accepted. *)
Lemma settled_reply_accepted (b : nat) (qs : props) (current ec : value)
    (acts : list action) (o : outcome) :
  filterMessage (VObj b qs) current ec = Ok (acts, Some o) ->
  forall E, lookup "error" qs = Some E -> error_accepted lib E = true.
Proof.
  intros Hf E HE. destruct (get_prop "id" current) as [ci|] eqn:Hci.
  - rewrite (filterMessage_object b qs current ec ci Hci), HE in Hf.
    destruct (strict_eq (field "id" qs) ci); [|discriminate].
    unfold JsonRpcError_of in Hf.
    destruct (error_accepted lib E); [reflexivity|discriminate].
  - unfold filterMessage in Hf. cbn in Hf. rewrite Hci in Hf. discriminate.
Qed.


(** ** The tracker stays sound *)

(** ** The tracker stays sound *)

Lemma kept_subset (m : value) (es : list entry) (e : entry) :
  In e (kept (matchEntries m es)) -> In e es.
Proof.
  induction es as [|e' es IH]; cbn; [contradiction|].
  destruct (e_filter e' m (e_message e') (e_enableCallbacks e'))
    as [[acts [o|]]|x]; cbn.
  - intros Hin. right. exact (IH Hin).
  - intros [->|Hin]; [left; reflexivity|right; exact (IH Hin)].
  - intros Hin. exact Hin.
Qed.

Lemma kept_handle_subset (m : value) (es : list entry) (h : nat) :
  In h (map e_handle (kept (matchEntries m es))) -> In h (map e_handle es).
Proof.
  intros Hin. apply in_map_iff in Hin. destruct Hin as (e & <- & He).
  apply in_map. exact (kept_subset m es e He).
Qed.

Lemma kept_handles (m : value) (es : list entry) :
  NoDup (map e_handle es) ->
  NoDup (map e_handle (kept (matchEntries m es))).
Proof.
  induction es as [|e es IH]; cbn; [constructor|].
  intros Hnd. apply NoDup_cons_iff in Hnd. destruct Hnd as [Hn Hnd].
  destruct (e_filter e m (e_message e) (e_enableCallbacks e))
    as [[acts [o|]]|x]; cbn.
  - exact (IH Hnd).
  - constructor; [|exact (IH Hnd)].
    intros Hin. apply Hn. exact (kept_handle_subset m es _ Hin).
  - constructor; assumption.
Qed.

(** A handle settled by a pass is no longer pending after it. *)
Lemma done_not_kept (m : value) (es : list entry) (h : nat) (o : outcome) :
  NoDup (map e_handle es) ->
  In (h, o) (done (matchEntries m es)) ->
  ~ In h (map e_handle (kept (matchEntries m es))).
Proof.
  induction es as [|e0 es IH]; cbn; [contradiction|].
  intros Hnd. apply NoDup_cons_iff in Hnd. destruct Hnd as [Hn Hnd].
  destruct (e_filter e0 m (e_message e0) (e_enableCallbacks e0))
    as [[acts0 [o0|]]|x] eqn:Hf0; cbn.
  - intros [Heq|Hin] Hk.
    + injection Heq as <- _. apply Hn. exact (kept_handle_subset m es _ Hk).
    + exact (IH Hnd Hin Hk).
  - intros Hin [Heq|Hk].
    + destruct (done_from_filter m es h o Hin) as (e & _ & He & Hh & _).
      apply Hn. rewrite Heq, <- Hh. apply in_map. exact He.
    + exact (IH Hnd Hin Hk).
  - contradiction.
Qed.

Lemma handles_of_filter (p : entry -> bool) (es : list entry) :
  NoDup (map e_handle es) -> NoDup (map e_handle (filter p es)).
Proof.
  induction es as [|e es IH]; cbn; [constructor|].
  intros Hnd. apply NoDup_cons_iff in Hnd. destruct Hnd as [Hn Hnd].
  destruct (p e); cbn; [|exact (IH Hnd)].
  constructor; [|exact (IH Hnd)].
  intros Hin. apply Hn. apply in_map_iff in Hin.
  destruct Hin as (e' & <- & He'). apply in_map.
  apply filter_In in He'. apply He'.
Qed.

Lemma sound_empty : sound empty_tracker.
Proof. repeat split; constructor. Qed.

Lemma sendRequest_sound (req ec : value) (s : state) :
  sound (messageTracker s) ->
  sound (messageTracker (snd (sendRequest req ec s))).
Proof.
  intros (Hnd & Hp & Hs & Hd & Hf). destruct (isConnected s) eqn:Hc.
  - rewrite sendRequest_connected by assumption. cbn. repeat split; cbn.
    + rewrite map_app. apply NoDup_app; [exact Hnd|repeat constructor; auto|].
      intros h Hin [<-|[]]. apply in_map_iff in Hin.
      destruct Hin as (e & Hh & He). rewrite Forall_forall in Hp.
      specialize (Hp e He). cbn in Hh. lia.
    + apply Forall_app. split.
      * eapply Forall_impl; [|exact Hp]. cbn. intros; lia.
      * constructor; [cbn; lia|constructor].
    + eapply Forall_impl; [|exact Hs]. cbn. intros; lia.
    + apply Forall_app. split; [exact Hd|].
      constructor; [|constructor]. cbn. apply assoc_fresh. exact Hs.
    + apply Forall_app. split; [exact Hf|].
      constructor; [reflexivity|constructor].
  - rewrite sendRequest_disconnected by assumption. cbn.
    repeat split; assumption.
Qed.

Lemma onMessage_sound (m : value) (s : state) :
  sound (messageTracker s) ->
  sound (messageTracker (snd (onMessage m s))).
Proof.
  intros (Hnd & Hp & Hs & Hd & Hf). rewrite onMessage_tracker.
  unfold sound; cbn [pending settled next_handle]. repeat split.
  - apply kept_handles. exact Hnd.
  - rewrite Forall_forall in *. intros e He. apply Hp.
    exact (kept_subset m _ e He).
  - apply Forall_app. split; [exact Hs|]. apply done_below. exact Hp.
  - rewrite Forall_forall in *. intros e He.
    rewrite assoc_app, (Hd e (kept_subset m _ e He)).
    apply assoc_absent. intros o Hin.
    apply (done_not_kept m _ _ o Hnd Hin). apply in_map. exact He.
  - rewrite Forall_forall in *. intros e He. apply Hf.
    exact (kept_subset m _ e He).
Qed.

Lemma checkMessages_sound (s : state) :
  sound (messageTracker s) ->
  sound (messageTracker (snd (checkMessages s))).
Proof.
  intros (Hnd & Hp & Hs & Hd & Hf). unfold checkMessages; cbn.
  repeat split; cbn.
  - apply handles_of_filter. exact Hnd.
  - rewrite Forall_forall in *. intros e He. apply filter_In in He.
    apply Hp, He.
  - apply Forall_app. split; [exact Hs|].
    rewrite Forall_forall in *. intros p Hin. apply in_map_iff in Hin.
    destruct Hin as (e & <- & He). apply filter_In in He. cbn.
    apply Hp, He.
  - rewrite Forall_forall in *. intros e He. apply filter_In in He.
    destruct He as [He Hlive].
    rewrite assoc_app, (Hd e He). apply assoc_absent. intros o Hin.
    apply in_map_iff in Hin. destruct Hin as (e' & Heq & He').
    injection Heq as Hh _. apply filter_In in He'. destruct He' as [He' Hlate].
    assert (e' = e) by (apply (handle_injective _ _ _ Hnd He' He Hh)).
    subst e'. rewrite Hlate in Hlive. discriminate.
  - rewrite Forall_forall in *. intros e He. apply filter_In in He.
    apply Hf, He.
Qed.

(** ** Histories *)

Lemma run_snoc (cs : list call) (c : call) (s : state) :
  run (cs ++ [c]) s = step c (run cs s).
Proof. unfold run. rewrite fold_left_app. reflexivity. Qed.

Lemma last_request_snoc (cs : list call) (c : call) :
  last_request (cs ++ [c]) =
    match c with
    | CallSendRequest req _ => Some req
    | _ => last_request cs
    end.
Proof. unfold last_request. rewrite fold_left_app. reflexivity. Qed.

Lemma run_app (cs1 cs2 : list call) (s : state) :
  run (cs1 ++ cs2) s = run cs2 (run cs1 s).
Proof. unfold run. apply fold_left_app. Qed.

Lemma step_sound (c : call) (s : state) :
  sound (messageTracker s) -> sound (messageTracker (step c s)).
Proof.
  intros H. destruct c as [t | req ec | evt | | m | evt | b | | dt];
    cbn [step].
  - destruct t; exact H.
  - apply sendRequest_sound. exact H.
  - unfold sendEvent, bind, transport_isConnected.
    destruct (isConnected s); exact H.
  - exact H.
  - apply onMessage_sound. exact H.
  - exact H.
  - exact H.
  - apply checkMessages_sound. exact H.
  - exact H.
Qed.

Lemma run_sound (cs : list call) (s : state) :
  sound (messageTracker s) -> sound (messageTracker (run cs s)).
Proof.
  induction cs as [|c cs IH] using rev_ind; intros H; [exact H|].
  rewrite run_snoc. apply step_sound. exact (IH H).
Qed.

(** A reply that the filter of a pending entry settles with [o] settles
    that entry's promise with [o], and [onMessage] consumes it, whenever no
    pending request is [null] or [undefined]. *)
Lemma pending_entry_settles (s : state) (e : entry) (b : nat) (qs : props)
    (acts : list action) (o : outcome) :
  sound (messageTracker s) ->
  In e (pending (messageTracker s)) ->
  Forall (fun e => defined (e_message e)) (pending (messageTracker s)) ->
  e_filter e (VObj b qs) (e_message e) (e_enableCallbacks e) =
    Ok (acts, Some o) ->
  fst (onMessage (VObj b qs) s) = Ok tt /\
  promise_state (snd (onMessage (VObj b qs) s)) (PromiseOf (e_handle e)) =
    Some o.
Proof.
  intros (Hnd & Hp & Hs & Hd & Hf) He Hdef Hfe.
  assert (Hacc : forall E, lookup "error" qs = Some E ->
                           error_accepted lib E = true).
  { rewrite Forall_forall in Hf. rewrite (Hf e He) in Hfe.
    exact (settled_reply_accepted _ _ _ _ _ _ Hfe). }
  assert (Hth : thrown (matchEntries (VObj b qs) (pending (messageTracker s)))
                = None).
  { apply matchEntries_returns; [exact Hacc|].
    rewrite Forall_forall in *. intros e' He'. split; auto. }
  destruct (matchEntries_settles _ _ _ _ _ Hth He Hfe) as [Hin Hm].
  split; [exact (onMessage_consumed _ _ Hth Hm)|].
  unfold promise_state. rewrite onMessage_tracker. cbn [settled].
  rewrite assoc_app. rewrite Forall_forall in Hd. rewrite (Hd e He).
  apply assoc_unique; [exact Hin|].
  intros o' Hin'.
  destruct (done_from_filter _ _ _ _ Hin') as (e' & acts' & He' & Hh & Hf').
  assert (e' = e) by (apply (handle_injective _ _ _ Hnd He' He Hh)).
  subst e'. congruence.
Qed.

(** An entry whose filter does not settle stays pending, and its promise
    too. *)
Lemma pending_entry_stays (s : state) (e : entry) (m : value) :
  sound (messageTracker s) ->
  In e (pending (messageTracker s)) ->
  (forall acts o,
     e_filter e m (e_message e) (e_enableCallbacks e) <> Ok (acts, Some o)) ->
  In e (pending (messageTracker (snd (onMessage m s)))) /\
  promise_state (snd (onMessage m s)) (PromiseOf (e_handle e)) = None.
Proof.
  intros (Hnd & Hp & Hs & Hd & Hf) He Hno.
  unfold promise_state. rewrite !onMessage_tracker. cbn [settled pending].
  split; [exact (kept_unless_settled _ _ _ He Hno)|].
  rewrite assoc_app. rewrite Forall_forall in Hd. rewrite (Hd e He).
  apply assoc_absent. intros o Hin.
  destruct (done_from_filter _ _ _ _ Hin) as (e' & acts' & He' & Hh & Hf').
  assert (e' = e) by (apply (handle_injective _ _ _ Hnd He' He Hh)).
  subst e'. exact (Hno _ _ Hf').
Qed.

(** An error that the library rejects, in a reply to a pending request,
    ends [onMessage] with the constructor's exception and changes nothing. *)
Lemma rejected_error_changes_nothing (s : state) (e : entry)
    (a b : nat) (ps qs : props) (E : value) :
  Forall (fun e => e_filter e = filterMessage) (pending (messageTracker s)) ->
  Forall (fun e => defined (e_message e)) (pending (messageTracker s)) ->
  In e (pending (messageTracker s)) ->
  e_message e = VObj a ps ->
  lookup "id" qs = Some (field "id" ps) ->
  lookup "error" qs = Some E ->
  error_accepted lib E = false ->
  onMessage (VObj b qs) s = (Throw LibraryError, s).
Proof.
  intros Hf Hdef He Hm Hid HE Hrej.
  rewrite onMessage_unfold. cbv zeta.
  rewrite (matchEntries_throws (VObj b qs) _ LibraryError).
  - cbn [thrown kept done emitted]. rewrite untouched. reflexivity.
  - rewrite Forall_forall in *. intros e' He'.
    destruct (get_prop_defined "id" _ (Hdef e' He')) as [ci Hci].
    rewrite (Hf e' He'), (filterMessage_object b qs _ _ ci Hci), HE.
    unfold JsonRpcError_of. rewrite Hrej.
    destruct (strict_eq (field "id" qs) ci); auto.
  - apply Exists_exists. exists e. split; [exact He|].
    rewrite Forall_forall in Hf. rewrite (Hf e He), Hm.
    rewrite (filterMessage_error_reply a b ps qs _ Hid E HE), Hrej.
    reflexivity.
Qed.

(** C7, amended: on a connected transport, in any state a client has
    reached, [sendRequest(req)] for a request object registers [req] with
    the tracker, sends it and returns a pending promise.  At any later
    moment at which the request is still pending and no pending request is
    [null] or [undefined]: an inbound object with the request's id, a result
    and no error resolves the promise with a ResponseResult; one with the
    request's id and an error that [JsonRpcError] accepts rejects it with a
    ResponseError; one with an error that [JsonRpcError] rejects ends
    [onMessage] with the constructor's exception and leaves the request
    pending.  A message whose id differs never settles the request. *)
Theorem C7_request_is_correlated_by_id
    (c0 : config) (before after : list call)
    (a : nat) (ps : props) (ec : value) :
  let s := run before (initial c0) in
  let req := VObj a ps in
  let h := next_handle (messageTracker s) in
  let s1 := snd (sendRequest req ec s) in
  let s2 := run after s1 in
  isConnected s = true ->
  (fst (sendRequest req ec s) = Ok (PromiseOf h) /\
   pending (messageTracker s1) =
     (pending (messageTracker s) ++ [registered req ec s])%list /\
   calls s1 = (calls s ++ [TransportSend req])%list /\
   promise_state s1 (PromiseOf h) = None) /\
  (In (registered req ec s) (pending (messageTracker s2)) ->
   promise_state s2 (PromiseOf h) = None /\
   (forall m,
      id_matches m req = false ->
      In (registered req ec s) (pending (messageTracker (snd (onMessage m s2)))) /\
      promise_state (snd (onMessage m s2)) (PromiseOf h) = None) /\
   (Forall (fun e => defined (e_message e)) (pending (messageTracker s2)) ->
    (forall b qs R,
       lookup "id" qs = Some (field "id" ps) ->
       lookup "result" qs = Some R ->
       lookup "error" qs = None ->
       fst (onMessage (VObj b qs) s2) = Ok tt /\
       promise_state (snd (onMessage (VObj b qs) s2)) (PromiseOf h) =
         Some (Resolved (OElement
                 (JsonRpcResponseResult [("id", field "id" ps); ("result", R)])))) /\
    (forall b qs E,
       lookup "id" qs = Some (field "id" ps) ->
       lookup "error" qs = Some E ->
       error_accepted lib E = true ->
       fst (onMessage (VObj b qs) s2) = Ok tt /\
       promise_state (snd (onMessage (VObj b qs) s2)) (PromiseOf h) =
         Some (Rejected (OElement
                 (JsonRpcResponseError (field "id" ps) (JsonRpcError E))))) /\
    (forall b qs E,
       lookup "id" qs = Some (field "id" ps) ->
       lookup "error" qs = Some E ->
       error_accepted lib E = false ->
       onMessage (VObj b qs) s2 = (Throw LibraryError, s2)))).
Proof.
  intros s req h s1 s2 Hconnected.
  assert (Hs : sound (messageTracker s)) by (apply run_sound, sound_empty).
  assert (Hs2 : sound (messageTracker s2))
    by (apply run_sound, sendRequest_sound, Hs).
  split.
  { subst s1. rewrite sendRequest_connected by assumption.
    repeat split. cbn. apply assoc_fresh. apply Hs. }
  intros Hpending.
  pose proof Hs2 as (Hnd & Hp & Hst & Hd & Hf).
  split; [|split].
  - rewrite Forall_forall in Hd. exact (Hd _ Hpending).
  - intros m Hm.
    apply (pending_entry_stays s2 (registered req ec s) m Hs2 Hpending).
    intros acts o. apply filterMessage_other_id. exact Hm.
  - intros Hdef. split; [|split].
    + intros b qs R Hid Hr He.
      apply (pending_entry_settles s2 (registered req ec s) b qs
               (callbacks ec (VObj b qs)) _ Hs2 Hpending Hdef).
      exact (filterMessage_result_reply a b ps qs ec Hid R Hr He).
    + intros b qs E Hid He Hacc.
      apply (pending_entry_settles s2 (registered req ec s) b qs
               (callbacks ec (VObj b qs)) _ Hs2 Hpending Hdef).
      cbn [registered e_filter e_message e_enableCallbacks].
      change req with (VObj a ps).
      rewrite (filterMessage_error_reply a b ps qs ec Hid E He), Hacc.
      reflexivity.
    + intros b qs E Hid He Hrej.
      exact (rejected_error_changes_nothing s2 (registered req ec s)
               a b ps qs E Hf Hdef Hpending eq_refl Hid He Hrej).
Qed.

Lemma tracker_ok_empty : tracker_ok empty_tracker.
Proof. repeat split; constructor. Qed.

Lemma sendRequest_tracker_ok (s : state) (a : nat) (ps : props) (ec : value) :
  tracker_ok (messageTracker s) ->
  tracker_ok (messageTracker (snd (sendRequest (VObj a ps) ec s))).
Proof.
  intros (Hp & Hs & Hok). destruct (isConnected s) eqn:Hc.
  - rewrite sendRequest_connected by assumption. cbn. repeat split.
    + apply Forall_app. split.
      * eapply Forall_impl; [|exact Hp]. cbn. intros; lia.
      * constructor; [cbn; lia|constructor].
    + eapply Forall_impl; [|exact Hs]. cbn. intros; lia.
    + apply Forall_app. split; [exact Hok|].
      constructor; [|constructor]. split; [reflexivity|]. exists a, ps.
      reflexivity.
  - rewrite sendRequest_disconnected by assumption. cbn. repeat split; assumption.
Qed.

Lemma onMessage_tracker_ok (m : value) (s : state) :
  tracker_ok (messageTracker s) ->
  tracker_ok (messageTracker (snd (onMessage m s))).
Proof.
  intros (Hp & Hs & Hok). rewrite onMessage_tracker.
  unfold tracker_ok; cbn [pending settled next_handle]. repeat split.
  - rewrite Forall_forall in *. intros e He. apply Hp.
    exact (kept_subset m _ e He).
  - apply Forall_app. split; [exact Hs|]. apply done_below. exact Hp.
  - rewrite Forall_forall in *. intros e He. apply Hok.
    exact (kept_subset m _ e He).
Qed.

Lemma late_below (f : entry -> bool) (es : list entry) (n : nat) :
  Forall (fun e => e_handle e < n) es ->
  Forall (fun p => fst p < n)
    (map (fun e => (e_handle e, Rejected (e_timeoutRejectWith e))) (filter f es)).
Proof.
  intros H. rewrite Forall_forall in *. intros p Hin.
  apply in_map_iff in Hin. destruct Hin as (e & <- & He).
  apply filter_In in He. cbn. apply H. apply He.
Qed.

Lemma checkMessages_tracker_ok (s : state) :
  tracker_ok (messageTracker s) ->
  tracker_ok (messageTracker (snd (checkMessages s))).
Proof.
  intros (Hp & Hs & Hok). unfold checkMessages; cbn. repeat split; cbn.
  - rewrite Forall_forall in *. intros e He. apply filter_In in He.
    apply Hp, He.
  - apply Forall_app. split; [exact Hs|]. apply late_below. exact Hp.
  - rewrite Forall_forall in *. intros e He. apply filter_In in He.
    apply Hok, He.
Qed.

(** ** Timeouts *)


(** C4, the failing input: with two requests outstanding and
    [messageTimeout] = 5000, nothing is rejected after 4999 ms, and after
    5000 ms the first request's promise is rejected with TIMEOUT_EXCEEDED,
    but the [data] that constant holds is the second request, not the
    first. *)
Theorem C4_concurrent_timeout_carries_other_request :
  let s := with_isConnected true (initial default_config) in
  let early := two_unanswered_requests 4999 s in
  let late := two_unanswered_requests 5000 s in
  fst early = Ok (PromiseOf 0, PromiseOf 1) /\
  promise_state (snd early) (PromiseOf 0) = None /\
  fst late = Ok (PromiseOf 0, PromiseOf 1) /\
  promise_state (snd late) (PromiseOf 0) =
    Some (Rejected (OError TIMEOUT_EXCEEDED)) /\
  carried_data (snd late) (Rejected (OError TIMEOUT_EXCEEDED)) = Some req2 /\
  req2 <> req1.
Proof.
  cbn. repeat split. discriminate.
Qed.

(** ** The constructor *)

(** ** The constructor *)

Lemma typeof_undefined (v : value) :
  (typeof v =? "undefined") = true <-> v = VUndefined.
Proof.
  destruct v; cbn; split; intros H; try reflexivity; discriminate.
Qed.

(** X1: the constructor throws "Missing configuration object" exactly when
    the configuration is [undefined] or [null], and the error about the
    transport provider exactly when the configuration is neither but its
    [transportProvider] reads as [undefined]; the checks themselves never
    raise a TypeError, whatever value is passed. *)
Theorem JsonRpcClient_settings_errors (c : value) :
  (JsonRpcClient_settings c = ThrowsError "Missing configuration object" <->
   c = VUndefined \/ c = VNull) /\
  (JsonRpcClient_settings c =
     ThrowsError "Required param 'transportProvider' is not defined" <->
   c <> VUndefined /\ c <> VNull /\
   get_prop "transportProvider" c = Ok VUndefined) /\
  (forall e, JsonRpcClient_settings c <> ThrowsNative e).
Proof.
  destruct c as [| | b | n | str | a ps]; cbn;
    try (repeat split; intros; try discriminate; intuition congruence).
  unfold field. destruct (lookup "transportProvider" ps) as [tp|]; cbn.
  - destruct (typeof tp =? "undefined") eqn:Hty.
    + apply typeof_undefined in Hty. subst tp.
      repeat split; intros; try discriminate; intuition congruence.
    + assert (tp <> VUndefined)
        by (intros ->; cbn in Hty; discriminate).
      destruct (lookup "messageCheckInterval" ps);
        destruct (lookup "messageTimeout" ps); cbn;
        repeat split; intros; try discriminate; intuition congruence.
  - repeat split; intros; try discriminate; intuition congruence.
Qed.

Lemma lookup_set_prop_other (k k' : string) (v : value) (ps : props) :
  k' <> k -> lookup k' (set_prop k v ps) = lookup k' ps.
Proof.
  intros Hk. induction ps as [|[k0 v0] ps IH]; cbn.
  - destruct (String.eqb_spec k' k); [contradiction|reflexivity].
  - destruct (String.eqb_spec k k0) as [->|Hk0]; cbn.
    + destruct (String.eqb_spec k' k0); [contradiction|reflexivity].
    + destruct (String.eqb_spec k' k0); [reflexivity|exact IH].
Qed.

Lemma JsonRpcClient_settings_object (a : nat) (ps : props) :
  JsonRpcClient_settings (VObj a ps) =
    match lookup "transportProvider" ps with
    | None | Some VUndefined =>
        ThrowsError "Required param 'transportProvider' is not defined"
    | Some tp =>
        Configured
          {| transportProvider := tp;
             config_messageCheckInterval :=
               match lookup "messageCheckInterval" ps with
               | Some v => v
               | None => VNum 1000
               end;
             config_messageTimeout :=
               match lookup "messageTimeout" ps with
               | Some v => v
               | None => VNum 5000
               end |}
    end.
Proof.
  cbn. unfold field.
  destruct (lookup "transportProvider" ps) as [tp|]; [|reflexivity].
  destruct tp; cbn; try reflexivity;
    destruct (lookup "messageCheckInterval" ps);
    destruct (lookup "messageTimeout" ps); reflexivity.
Qed.

(** X2: when both checks pass, the values the constructor reads at lines
    35-39 are [messageCheckInterval] and [messageTimeout] exactly as given
    whenever the key is present, even with the value [undefined], and 1000
    and 5000 only when the key is absent.  No other key of the
    configuration, [reconnect] and [reconnectAfter] included, has any effect
    on the checks or on what is read.  (Whether construction then completes
    is decided by the provider's own methods at lines 40-43.) *)
Theorem JsonRpcClient_settings_defaults (a : nat) (ps : props) (tp : value)
    (Hprovider : lookup "transportProvider" ps = Some tp)
    (Hdefined : tp <> VUndefined) :
  JsonRpcClient_settings (VObj a ps) =
    Configured
      {| transportProvider := tp;
         config_messageCheckInterval :=
           match lookup "messageCheckInterval" ps with
           | Some v => v
           | None => VNum 1000
           end;
         config_messageTimeout :=
           match lookup "messageTimeout" ps with
           | Some v => v
           | None => VNum 5000
           end |} /\
  forall k v,
    k <> "transportProvider" ->
    k <> "messageCheckInterval" ->
    k <> "messageTimeout" ->
    JsonRpcClient_settings (VObj a (set_prop k v ps)) =
    JsonRpcClient_settings (VObj a ps).
Proof.
  split.
  - rewrite JsonRpcClient_settings_object, Hprovider.
    destruct tp; try reflexivity. contradiction.
  - intros k v H1 H2 H3. rewrite !JsonRpcClient_settings_object.
    rewrite !lookup_set_prop_other by (intros E; symmetry in E; contradiction).
    reflexivity.
Qed.

(** ** The filter *)

(** ** The filter *)

Lemma strict_eq_true (v : value) :
  strict_eq v (VBool true) = true <-> v = VBool true.
Proof.
  destruct v as [| | [|] | | |]; cbn; split; intros H;
    try reflexivity; discriminate.
Qed.

(** On anything but an object the filter settles nothing. *)
Lemma filterMessage_settles_object (m current ec : value)
    (acts : list action) (o : outcome) :
  filterMessage m current ec = Ok (acts, Some o) ->
  exists a ps, m = VObj a ps.
Proof.
  intros H. destruct m as [| | b | n | str | a ps];
    try (unfold filterMessage in H; cbn in H;
         destruct (get_prop "id" current) as [ci|]; cbn in H;
         try destruct ci; cbn in H; discriminate).
  exists a, ps. reflexivity.
Qed.

(** X3: the filter settles a pending request only on an inbound object whose
    id is strictly equal to the request's and that has an error or a result:
    it rejects with a ResponseError built from the error when there is one,
    and resolves with a ResponseResult of id and result otherwise.  Nothing
    else makes it call [resolve] or [reject]. *)
Theorem filterMessage_settles_only_matching_replies
    (m current ec : value) (acts : list action) (o : outcome)
    (Hsettles : filterMessage m current ec = Ok (acts, Some o)) :
  exists a ps,
    m = VObj a ps /\
    id_matches m current = true /\
    ((exists e,
        lookup "error" ps = Some e /\
        o = Rejected (OElement
              (JsonRpcResponseError (field "id" ps) (JsonRpcError e)))) \/
     (exists r,
        lookup "error" ps = None /\
        lookup "result" ps = Some r /\
        o = Resolved (OElement
              (JsonRpcResponseResult [("id", field "id" ps); ("result", r)])))).
Proof.
  destruct (filterMessage_settles_object _ _ _ _ _ Hsettles) as (a & ps & ->).
  exists a, ps. split; [reflexivity|].
  destruct (id_matches (VObj a ps) current) eqn:Hid;
    [|exfalso; exact (filterMessage_other_id _ _ ec Hid _ _ Hsettles)].
  split; [reflexivity|].
  unfold id_matches in Hid. cbn in Hid.
  destruct (get_prop "id" current) as [ci|] eqn:Hci; [|discriminate].
  rewrite (filterMessage_object a ps current ec ci Hci), Hid in Hsettles.
  destruct (lookup "error" ps) as [e|].
  - left. exists e. split; [reflexivity|]. unfold JsonRpcError_of in Hsettles.
    destruct (error_accepted lib e); cbn in Hsettles; congruence.
  - destruct (lookup "result" ps) as [r|]; [|discriminate].
    right. exists r. repeat split. congruence.
Qed.

(** X4: the filter calls the emitter only when it settles the request, and
    then only if [enableCallbacks] is the boolean [true] itself (no other
    truthy value will do); what it emits is the raw inbound message, once. *)
Theorem filterMessage_emits_only_when_enabled
    (m current ec : value) (acts : list action) (o : option outcome)
    (Hreturns : filterMessage m current ec = Ok (acts, o)) :
  (o = None -> acts = []) /\
  (ec <> VBool true -> acts = []) /\
  (o <> None -> ec = VBool true -> acts = [Emit "message" (OValue m)]).
Proof.
  assert (Hcb : forall x, o = Some x -> acts = callbacks ec m).
  { intros x ->.
    destruct (filterMessage_settles_object _ _ _ _ _ Hreturns) as (a & ps & ->).
    destruct (get_prop "id" current) as [ci|] eqn:Hci.
    - rewrite (filterMessage_object a ps current ec ci Hci) in Hreturns.
      destruct (strict_eq (field "id" ps) ci); [|discriminate].
      destruct (lookup "error" ps) as [e|].
      + unfold JsonRpcError_of in Hreturns.
        destruct (error_accepted lib e); cbn in Hreturns; congruence.
      + destruct (lookup "result" ps); [congruence|discriminate].
    - unfold filterMessage in Hreturns. cbn in Hreturns.
      rewrite Hci in Hreturns. discriminate. }
  assert (Hnone : o = None -> acts = []).
  { intros ->. destruct m as [| | b | n | str | a ps];
      try (unfold filterMessage in Hreturns; cbn in Hreturns;
           destruct (get_prop "id" current) as [ci|]; cbn in Hreturns;
           try destruct ci; cbn in Hreturns; congruence).
    destruct (get_prop "id" current) as [ci|] eqn:Hci.
    - rewrite (filterMessage_object a ps current ec ci Hci) in Hreturns.
      destruct (strict_eq (field "id" ps) ci); [|congruence].
      destruct (lookup "error" ps) as [e|].
      + unfold JsonRpcError_of in Hreturns.
        destruct (error_accepted lib e); cbn in Hreturns; discriminate.
      + destruct (lookup "result" ps); [discriminate|congruence].
    - unfold filterMessage in Hreturns. cbn in Hreturns.
      rewrite Hci in Hreturns. discriminate. }
  split; [exact Hnone|]. split.
  - intros Hec. destruct o as [x|]; [|auto].
    rewrite (Hcb x eq_refl). unfold callbacks.
    destruct (strict_eq ec (VBool true)) eqn:E; [|reflexivity].
    apply strict_eq_true in E. contradiction.
  - intros Ho ->. destruct o as [x|]; [|contradiction].
    rewrite (Hcb x eq_refl). reflexivity.
Qed.

(** ** Calls on the transport *)

Lemma filterMessage_acts (m current ec : value)
    (acts : list action) (o : option outcome) :
  filterMessage m current ec = Ok (acts, o) ->
  acts = [] \/ acts = [Emit "message" (OValue m)].
Proof.
  intros H. destruct m as [| | b | n | str | a ps];
    try (unfold filterMessage in H; cbn in H;
         destruct (get_prop "id" current) as [ci|]; cbn in H;
         try destruct ci; cbn in H; left; congruence).
  destruct (get_prop "id" current) as [ci|] eqn:Hci.
  - rewrite (filterMessage_object a ps current ec ci Hci) in H.
    assert (Hcb : callbacks ec (VObj a ps) = [] \/
                  callbacks ec (VObj a ps) = [Emit "message" (OValue (VObj a ps))])
      by (unfold callbacks; destruct (strict_eq ec (VBool true)); auto).
    destruct (strict_eq (field "id" ps) ci); [|left; congruence].
    destruct (lookup "error" ps) as [e|];
      [unfold JsonRpcError_of in H; destruct (error_accepted lib e);
       cbn in H; [injection H as <- _; exact Hcb|discriminate]|].
    destruct (lookup "result" ps);
      [injection H as <- _; exact Hcb|left; congruence].
  - unfold filterMessage in H. cbn in H. rewrite Hci in H. discriminate.
Qed.

(** What the filter settles with is a JSON-RPC element, never one of the
    shared constants. *)
Lemma filterMessage_outcome_element (m current ec : value)
    (acts : list action) (o : outcome) :
  filterMessage m current ec = Ok (acts, Some o) ->
  o <> Rejected (OError TIMEOUT_EXCEEDED).
Proof.
  intros H.
  destruct (filterMessage_settles_object _ _ _ _ _ H) as (a & ps & ->).
  destruct (get_prop "id" current) as [ci|] eqn:Hci.
  - rewrite (filterMessage_object a ps current ec ci Hci) in H.
    destruct (strict_eq (field "id" ps) ci); [|discriminate].
    destruct (lookup "error" ps) as [e|];
      [unfold JsonRpcError_of in H; destruct (error_accepted lib e);
       cbn in H; congruence|].
    destruct (lookup "result" ps); [congruence|discriminate].
  - unfold filterMessage in H. cbn in H. rewrite Hci in H. discriminate.
Qed.

(** ** Sending, continued *)

(** X6: on a connected transport [sendRequest] never throws, whatever it is
    given.  On a disconnected one it throws a TypeError, instead of
    returning a rejected promise, exactly when the request is [null] or
    [undefined]; by then the request has already been stored in the [data]
    of TIMEOUT_EXCEEDED. *)
Theorem sendRequest_throws_only_without_request (req ec : value) (s : state) :
  (forall e,
     fst (sendRequest req ec s) = Throw e <->
     e = TypeError /\ isConnected s = false /\ (req = VNull \/ req = VUndefined)) /\
  data (ERRORS (snd (sendRequest req ec s))) TIMEOUT_EXCEEDED = req.
Proof.
  split; [|apply sendRequest_sets_data].
  intros e. destruct (isConnected s) eqn:Hc.
  - rewrite sendRequest_connected by assumption. cbn.
    split; [discriminate|intros (_ & ? & _); discriminate].
  - rewrite sendRequest_disconnected by assumption.
    destruct req; cbn; split; intros H;
      try discriminate;
      try (injection H as <-; repeat split; auto; fail);
      try (destruct H as (-> & _ & _); reflexivity);
      destruct H as (_ & _ & [H|H]); discriminate.
Qed.

(** ** Inbound messages *)

Lemma matchEntries_idle (m : value) (es : list entry) :
  Forall (fun e =>
            e_filter e m (e_message e) (e_enableCallbacks e) = Ok ([], None))
         es ->
  matchEntries m es =
    {| kept := es; done := []; emitted := []; matched := false;
       thrown := None |}.
Proof.
  induction 1 as [|e es He _ IH]; cbn; [reflexivity|].
  rewrite He, IH. reflexivity.
Qed.

Lemma idle_without_reply (b : nat) (qs : props) (es : list entry) :
  lookup "result" qs = None ->
  lookup "error" qs = None ->
  Forall entry_defined es ->
  Forall (fun e =>
            e_filter e (VObj b qs) (e_message e) (e_enableCallbacks e) =
            Ok ([], None))
         es.
Proof.
  intros Hr He Hok. eapply Forall_impl; [|exact Hok].
  intros e [Hf Hd]. destruct (get_prop_defined "id" _ Hd) as [ci Hci].
  rewrite Hf, (filterMessage_object b qs _ _ ci Hci), He, Hr.
  destruct (strict_eq (field "id" qs) ci); reflexivity.
Qed.


(** X5: an inbound object with neither result nor error (a request or an
    event from the peer, even one that reuses the id of a pending request)
    never settles or removes a pending request, as long as no pending
    request is [null] or [undefined]: the tracker is left exactly as it
    was.  What [onMessage] does besides is decided by the classification:
    with an id and no method it emits [undefined]; with an id and a method
    it emits the Request that [JsonRpcRequest] returns, and without an id
    the Event that [JsonRpcEvent] returns; when the constructor rejects its
    argument its exception ends [onMessage] and nothing is emitted. *)
Theorem onMessage_without_reply_fields_leaves_tracker
    (s : state) (b : nat) (qs : props)
    (Hok : Forall entry_defined (pending (messageTracker s)))
    (Hresult : lookup "result" qs = None)
    (Herror : lookup "error" qs = None) :
  classify (VObj b qs) =
    match lookup "id" qs with
    | None =>
        let o := [("method", field "method" qs); ("params", field "params" qs)] in
        if event_accepted lib o
        then Ok (Some (JsonRpcEvent o)) else Throw LibraryError
    | Some i =>
        match lookup "method" qs with
        | Some mt =>
            let o := [("id", i); ("method", mt); ("params", field "params" qs)] in
            if request_accepted lib o
            then Ok (Some (JsonRpcRequest o)) else Throw LibraryError
        | None => Ok None
        end
    end /\
  onMessage (VObj b qs) s =
    match classify (VObj b qs) with
    | Ok msg =>
        (Ok tt, with_calls (calls s ++ [Emit "message" (payload_of msg)]) s)
    | Throw x => (Throw x, s)
    end.
Proof.
  split.
  - rewrite classify_object, Hresult, Herror.
    unfold JsonRpcEvent_of, JsonRpcRequest_of.
    destruct (lookup "id" qs); cbn.
    + destruct (lookup "method" qs); cbn; [|reflexivity].
      destruct (request_accepted lib _); reflexivity.
    + destruct (event_accepted lib _); reflexivity.
  - rewrite onMessage_unfold. cbv zeta.
    rewrite (matchEntries_idle _ _
               (idle_without_reply b qs _ Hresult Herror Hok)).
    cbn [thrown matched kept done emitted]. rewrite untouched.
    destruct (classify (VObj b qs)); reflexivity.
Qed.

(** X10: what [onMessage] does with a message that no pending request
    consumed is decided by the classification alone.  When the classifier
    returns, there is exactly one emission on the message channel, of the
    element, or of [undefined] when there is none, which is the case for
    every message that is not an object and for every object with an id and
    neither result, error nor method.  When the classifier throws ([null],
    or an argument the library rejects), nothing is emitted and the
    exception leaves [onMessage]. *)
Theorem onMessage_unmatched_emits_once (m : value) (s s1 : state)
    (Hunmatched : matchMessage m s = (Ok false, s1)) :
  onMessage m s =
    match classify m with
    | Ok msg =>
        (Ok tt, with_calls (calls s1 ++ [Emit "message" (payload_of msg)]) s1)
    | Throw x => (Throw x, s1)
    end /\
  (typeof m <> "object" -> classify m = Ok None) /\
  (forall a ps i,
     m = VObj a ps ->
     lookup "id" ps = Some i ->
     lookup "result" ps = None ->
     lookup "error" ps = None ->
     lookup "method" ps = None ->
     classify m = Ok None).
Proof.
  split; [|split].
  - unfold onMessage, bind, lift. rewrite Hunmatched. cbn [negb].
    destruct (classify m); reflexivity.
  - apply classify_not_object.
  - intros a ps i -> Hid Hr He Hm.
    rewrite classify_object, Hid, Hm, He, Hr. reflexivity.
Qed.

(** X11: delivering [null] makes [onMessage] throw a TypeError in every
    state, with or without pending requests (the filter fails on [m.id]
    before the classifier is reached), and nothing changes: no request is
    settled or dropped and nothing is emitted. *)
Theorem onMessage_null_throws_and_changes_nothing (s : state)
    (Hfilters :
       Forall (fun e => e_filter e = filterMessage) (pending (messageTracker s))) :
  onMessage VNull s = (Throw TypeError, s).
Proof.
  rewrite onMessage_unfold. cbv zeta.
  destruct (pending (messageTracker s)) as [|e es] eqn:Hp.
  - cbn. rewrite <- Hp at 1. rewrite untouched. reflexivity.
  - inversion Hfilters as [|? ? Hf _]; subst.
    cbn [matchEntries]. rewrite Hf. cbn.
    rewrite <- Hp. rewrite untouched. reflexivity.
Qed.


(** ** Disconnecting *)


(** ** Histories *)

(** Only [sendRequest] writes to the shared constants. *)
Lemma step_ERRORS (c : call) (s : state) :
  ERRORS (step c s) =
    match c with
    | CallSendRequest req _ => set_data TIMEOUT_EXCEEDED req (ERRORS s)
    | _ => ERRORS s
    end.
Proof.
  destruct c as [t | req ec | evt | | m | evt | b | | dt]; cbn [step];
    try reflexivity.
  - destruct t; reflexivity.
  - destruct (isConnected s) eqn:Hc.
    + rewrite sendRequest_connected by assumption. reflexivity.
    + rewrite sendRequest_disconnected by assumption. reflexivity.
  - unfold sendEvent, bind, transport_isConnected.
    destruct (isConnected s); reflexivity.
  - rewrite onMessage_unfold. cbv zeta.
    destruct (thrown _); [reflexivity|].
    destruct (matched _); [reflexivity|].
    destruct (classify m); reflexivity.
Qed.

(** X7: whatever the application, the transport and the timer do to a
    client, in whatever order, the [data] of NO_ERROR and of
    INVALID_STATE_ERR is never written, and the [data] of TIMEOUT_EXCEEDED
    is the argument of the most recent [sendRequest], successful or not (or
    what it was before, when there was none). *)
Theorem shared_constants_after_any_history (cs : list call) (s : state) :
  data (ERRORS (run cs s)) NO_ERROR = data (ERRORS s) NO_ERROR /\
  data (ERRORS (run cs s)) INVALID_STATE_ERR = data (ERRORS s) INVALID_STATE_ERR /\
  data (ERRORS (run cs s)) TIMEOUT_EXCEEDED =
    match last_request cs with
    | Some req => req
    | None => data (ERRORS s) TIMEOUT_EXCEEDED
    end.
Proof.
  induction cs as [|c cs IH] using rev_ind; [repeat split|].
  rewrite run_snoc, last_request_snoc, step_ERRORS.
  destruct IH as (IH1 & IH2 & IH3).
  destruct c; cbn; repeat split; assumption.
Qed.

(** A pending entry was pending before the step, or the step is the
    [sendRequest] that registered it. *)
Lemma step_pending (c : call) (s : state) (e : entry) :
  In e (pending (messageTracker (step c s))) ->
  In e (pending (messageTracker s)) \/
  exists req ec, c = CallSendRequest req ec /\ e = registered req ec s.
Proof.
  destruct c as [t | req ec | evt | | m | evt | b | | dt]; cbn [step].
  - destruct t; cbn; auto.
  - destruct (isConnected s) eqn:Hc.
    + rewrite sendRequest_connected by assumption. cbn.
      intros Hin. apply in_app_or in Hin. destruct Hin as [Hin|[<-|[]]].
      * left. exact Hin.
      * right. exists req, ec. split; reflexivity.
    + rewrite sendRequest_disconnected by assumption. cbn. auto.
  - unfold sendEvent, bind, transport_isConnected.
    destruct (isConnected s); cbn; auto.
  - cbn. auto.
  - rewrite onMessage_tracker. cbn. intros Hin. left.
    exact (kept_subset m _ e Hin).
  - cbn. auto.
  - cbn. auto.
  - cbn. intros Hin. apply filter_In in Hin. left. apply Hin.
  - cbn. auto.
Qed.

(** X8: in every state a fresh client can reach, every pending request,
    however old, holds the same shared TIMEOUT_EXCEEDED constant as its
    timeout rejection (and [filterMessage] as its filter), so the [data] its
    timeout would carry is the argument of the most recent [sendRequest] of
    the history, not necessarily the request that is pending. *)
Theorem pending_timeouts_carry_last_request
    (cs : list call) (c0 : config) (e : entry)
    (Hpending : In e (pending (messageTracker (run cs (initial c0))))) :
  exists req,
    last_request cs = Some req /\
    e_filter e = filterMessage /\
    e_timeoutRejectWith e = OError TIMEOUT_EXCEEDED /\
    carried_data (run cs (initial c0)) (Rejected (e_timeoutRejectWith e)) =
      Some req.
Proof.
  revert e Hpending. induction cs as [|c cs IH] using rev_ind;
    intros e Hpending; [contradiction|].
  rewrite run_snoc in *. rewrite last_request_snoc.
  destruct (step_pending _ _ _ Hpending) as [Hin|(req & ec & -> & ->)].
  - destruct (IH e Hin) as (r & Hlast & Hf & Ht & Hd).
    rewrite Ht in *. cbn in Hd. cbn [carried_data carried_error].
    rewrite step_ERRORS.
    destruct c; try (exists r; repeat split; assumption).
    eexists. repeat split; assumption.
  - exists req. repeat split.
    cbn [carried_data carried_error registered e_timeoutRejectWith].
    rewrite step_ERRORS. reflexivity.
Qed.

Lemma step_defined (c : call) (s : state) :
  sends_defined [c] ->
  Forall entry_defined (pending (messageTracker s)) ->
  Forall entry_defined (pending (messageTracker (step c s))).
Proof.
  intros Hc Hok. inversion Hc as [|? ? Hreq _]; subst.
  apply Forall_forall. intros e He.
  destruct (step_pending _ _ _ He) as [Hin|(req & ec & -> & ->)].
  - rewrite Forall_forall in Hok. exact (Hok e Hin).
  - split; [reflexivity|exact Hreq].
Qed.

Lemma run_defined (cs : list call) (s : state) :
  sends_defined cs ->
  Forall entry_defined (pending (messageTracker s)) ->
  Forall entry_defined (pending (messageTracker (run cs s))).
Proof.
  induction cs as [|c cs IH] using rev_ind; intros Hcs Hok; [exact Hok|].
  apply Forall_app in Hcs. destruct Hcs as [Hcs Hc].
  rewrite run_snoc. apply step_defined; [exact Hc|]. apply IH; assumption.
Qed.

(** X14: as long as no request handed to [sendRequest] is [null] or
    [undefined], no inbound object can make the client's own code fail, in
    any state a fresh client reaches: [onMessage] returns normally, or ends
    with the exception of a JSON-RPC constructor that rejected its argument,
    and never with a TypeError.  An object with an id and neither error nor
    method (a result reply, or a bare id) always returns normally. *)
Theorem onMessage_accepts_every_object
    (cs : list call) (c0 : config) (b : nat) (qs : props)
    (Hdefined : sends_defined cs) :
  let s := run cs (initial c0) in
  (fst (onMessage (VObj b qs) s) = Ok tt \/
   fst (onMessage (VObj b qs) s) = Throw LibraryError) /\
  (lookup "id" qs <> None ->
   lookup "error" qs = None ->
   lookup "method" qs = None ->
   fst (onMessage (VObj b qs) s) = Ok tt).
Proof.
  intros s.
  assert (Hnt : forall x, classify (VObj b qs) = Throw x -> x = LibraryError).
  { intros x. rewrite classify_object.
    unfold JsonRpcEvent_of, JsonRpcRequest_of, JsonRpcError_of.
    destruct (lookup "id" qs); cbn.
    - destruct (lookup "error" qs) as [E|]; cbn;
        [destruct (error_accepted lib E); cbn|destruct (lookup "result" qs); cbn];
        try destruct (lookup "method" qs); cbn;
        try destruct (request_accepted lib _); cbn; congruence.
    - destruct (event_accepted lib _); cbn; congruence. }
  pose proof (run_defined cs (initial c0) Hdefined (Forall_nil _)) as Hok.
  fold s in Hok.
  assert (Hpass : forall x,
            thrown (matchEntries (VObj b qs) (pending (messageTracker s))) = Some x ->
            x = LibraryError).
  { induction Hok as [|e es [Hf Hd] _ IH]; cbn; [discriminate|].
    destruct (get_prop_defined "id" _ Hd) as [ci Hci].
    rewrite Hf, (filterMessage_object b qs _ _ ci Hci).
    unfold JsonRpcError_of.
    destruct (strict_eq (field "id" qs) ci); [|exact IH].
    destruct (lookup "error" qs) as [E|].
    - destruct (error_accepted lib E); cbn; [exact IH|]. congruence.
    - destruct (lookup "result" qs); exact IH. }
  split.
  - rewrite onMessage_unfold. cbv zeta.
    destruct (thrown _) as [x|] eqn:Hth.
    + right. cbn [fst]. f_equal. exact (Hpass x eq_refl).
    + destruct (matched _); [left; reflexivity|].
      destruct (classify (VObj b qs)) as [msg|x] eqn:Hc;
        [left; reflexivity|right; cbn [fst]; f_equal; exact (Hnt x eq_refl)].
  - intros Hid He Hm.
    assert (Hacc : forall E, lookup "error" qs = Some E ->
                             error_accepted lib E = true)
      by (intros E HE; congruence).
    pose proof (matchEntries_returns b qs _ Hacc Hok) as Hth.
    rewrite onMessage_unfold. cbv zeta. rewrite Hth.
    destruct (matched _); [reflexivity|].
    rewrite classify_object, He, Hm.
    destruct (lookup "id" qs); [|contradiction].
    destruct (lookup "result" qs); reflexivity.
Qed.

(** ** Calls on the transport *)

Lemma matchEntries_no_transport_call (m : value) (es : list entry) :
  Forall (fun e => e_filter e = filterMessage) es ->
  transport_calls (emitted (matchEntries m es)) = [].
Proof.
  induction 1 as [|e es Hf _ IH]; cbn; [reflexivity|].
  rewrite Hf.
  destruct (filterMessage m (e_message e) (e_enableCallbacks e))
    as [[acts o]|x] eqn:E; [|reflexivity].
  unfold transport_calls in *.
  destruct (filterMessage_acts _ _ _ _ _ E) as [->| ->];
    destruct o; cbn; exact IH.
Qed.

Lemma run_filters (cs : list call) (c0 : config) :
  Forall (fun e => e_filter e = filterMessage)
         (pending (messageTracker (run cs (initial c0)))).
Proof.
  induction cs as [|c cs IH] using rev_ind; [constructor|].
  rewrite run_snoc. apply Forall_forall. intros e He.
  destruct (step_pending _ _ _ He) as [Hin|(req & ec & _ & ->)].
  - rewrite Forall_forall in IH. exact (IH e Hin).
  - reflexivity.
Qed.

(** X15: in every state a fresh client reaches, the client calls the
    transport only on behalf of the application: [connect] calls the
    transport's [connect] once, [disconnect] its [disconnect] once,
    [sendRequest] and [sendEvent] its [send] once with their argument when
    the transport is connected and not at all otherwise.  An inbound
    message, a disconnect reported by the transport, a timeout or the
    passing of time never makes the client call the transport: it neither
    answers, resends nor reconnects on its own. *)
Theorem transport_is_called_only_by_the_application
    (cs : list call) (c0 : config) (c : call) :
  let s := run cs (initial c0) in
  transport_calls (calls (step c s)) =
    (transport_calls (calls s) ++
     match c with
     | CallConnect _ => [TransportConnect]
     | CallSendRequest req _ =>
         if isConnected s then [TransportSend req] else []
     | CallSendEvent evt =>
         if isConnected s then [TransportSend evt] else []
     | CallDisconnect => [TransportDisconnect]
     | InboundMessage _ | InboundDisconnect _ | ConnectionChanges _
     | TimerSweep | TimePasses _ => []
     end)%list.
Proof.
  intros s. pose proof (run_filters cs c0) as Hf. fold s in Hf.
  unfold transport_calls in *.
  destruct c as [t | req ec | evt | | m | evt | b | | dt]; cbn [step].
  - destruct t; cbn; rewrite ?filter_app; cbn;
      rewrite <- ?app_assoc, ?filter_app; cbn; rewrite ?app_nil_r; reflexivity.
  - destruct (isConnected s) eqn:Hc.
    + rewrite sendRequest_connected by assumption. cbn.
      rewrite filter_app. reflexivity.
    + rewrite sendRequest_disconnected by assumption. cbn.
      rewrite app_nil_r. reflexivity.
  - unfold sendEvent, bind, transport_isConnected, transport_send, log, ret.
    destruct (isConnected s); cbn.
    + rewrite filter_app. reflexivity.
    + rewrite app_nil_r. reflexivity.
  - cbn. rewrite filter_app. reflexivity.
  - rewrite onMessage_unfold. cbv zeta.
    pose proof (matchEntries_no_transport_call m _ Hf) as He.
    unfold transport_calls in He.
    destruct (thrown _); [cbn; rewrite filter_app, He; reflexivity|].
    destruct (matched _); [cbn; rewrite filter_app, He; reflexivity|].
    destruct (classify m); cbn; rewrite ?filter_app, He; cbn;
      rewrite ?app_nil_r; reflexivity.
  - cbn. rewrite filter_app. cbn. reflexivity.
  - cbn. rewrite app_nil_r. reflexivity.
  - cbn. rewrite app_nil_r. reflexivity.
  - cbn. rewrite app_nil_r. reflexivity.
Qed.

(** ** Timeouts under any interleaving *)

Lemma step_awaits (h : nat) (D : Z) (c : call) (s : state) :
  time_moves_forward [c] ->
  awaits h D s ->
  awaits h D (step c s) /\ (clock s <= clock (step c s))%Z.
Proof.
  intros Hc (Hh & Hd & Hf & Hs). inversion Hc as [|? ? Hdt _]; subst.
  destruct c as [t | req ec | evt | | m | evt | b | | dt]; cbn [step].
  - destruct t; cbn; (split; [repeat split; assumption|lia]).
  - destruct (isConnected s) eqn:Hconn.
    + rewrite sendRequest_connected by assumption. cbn.
      split; [|lia]. repeat split; cbn.
      * lia.
      * apply Forall_app. split; [exact Hd|].
        constructor; [|constructor]. cbn. intros E. lia.
      * apply Forall_app. split; [exact Hf|].
        constructor; [reflexivity|constructor].
      * exact Hs.
    + rewrite sendRequest_disconnected by assumption. cbn.
      split; [repeat split; assumption|lia].
  - unfold sendEvent, bind, transport_isConnected.
    destruct (isConnected s); cbn; (split; [repeat split; assumption|lia]).
  - cbn. split; [repeat split; assumption|lia].
  - assert (Hk : clock (snd (onMessage m s)) = clock s).
    { rewrite onMessage_unfold. cbv zeta.
      destruct (thrown _); [reflexivity|].
      destruct (matched _); [reflexivity|].
      destruct (classify m); reflexivity. }
    split; [|lia]. unfold awaits. rewrite onMessage_tracker, Hk.
    cbn [pending settled next_handle]. repeat split.
    + exact Hh.
    + rewrite Forall_forall in *. intros e He. apply Hd.
      exact (kept_subset m _ e He).
    + rewrite Forall_forall in *. intros e He. apply Hf.
      exact (kept_subset m _ e He).
    + rewrite assoc_app.
      destruct (assoc h (settled (messageTracker s))) as [o|];
        [exact Hs|].
      intros Ha. apply assoc_In in Ha.
      destruct (done_from_filter m _ _ _ Ha) as (e & acts & He & _ & Hfe).
      rewrite Forall_forall in Hf. rewrite (Hf e He) in Hfe.
      exfalso. exact (filterMessage_outcome_element _ _ _ _ _ Hfe eq_refl).
  - cbn. split; [repeat split; assumption|lia].
  - cbn. split; [repeat split; assumption|lia].
  - cbn. split; [|lia]. repeat split; cbn.
    + exact Hh.
    + rewrite Forall_forall in *. intros e He. apply filter_In in He.
      apply Hd, He.
    + rewrite Forall_forall in *. intros e He. apply filter_In in He.
      apply Hf, He.
    + rewrite assoc_app.
      destruct (assoc h (settled (messageTracker s))) as [o|];
        [exact Hs|].
      intros Ha. apply assoc_In in Ha. apply in_map_iff in Ha.
      destruct Ha as (e & Heq & He). injection Heq as Hhe _.
      apply filter_In in He. destruct He as [He Hexp].
      rewrite Forall_forall in Hd. rewrite <- (Hd e He Hhe).
      unfold expired in Hexp. apply Z.leb_le. exact Hexp.
  - cbn. split; [|lia]. repeat split; try assumption.
    cbn. intros Ha. specialize (Hs Ha). lia.
Qed.

Lemma run_awaits (h : nat) (D : Z) (cs : list call) (s : state) :
  time_moves_forward cs ->
  awaits h D s ->
  awaits h D (run cs s).
Proof.
  induction cs as [|c cs IH] using rev_ind; intros Hcs Hs; [exact Hs|].
  apply Forall_app in Hcs. destruct Hcs as [Hcs Hc].
  rewrite run_snoc. apply step_awaits; [exact Hc|]. apply IH; assumption.
Qed.

(** X13: a request sent on a connected transport is never rejected with
    TIMEOUT_EXCEEDED before [messageTimeout] milliseconds have passed since
    it was sent, whatever else happens in between, in whatever order: other
    requests and events, inbound messages, disconnects, sweeps of the
    tracker. *)
Theorem no_timeout_before_messageTimeout
    (s : state) (req ec : value) (cs : list call)
    (Hok : tracker_ok (messageTracker s))
    (Hconnected : isConnected s = true)
    (Htime : time_moves_forward cs) :
  let h := next_handle (messageTracker s) in
  let s1 := snd (sendRequest req ec s) in
  promise_state (run cs s1) (PromiseOf h) =
    Some (Rejected (OError TIMEOUT_EXCEEDED)) ->
  (clock s + messageTimeout (cfg s) <= clock (run cs s1))%Z.
Proof.
  intros h s1 Hrej.
  assert (Hs1 : awaits h (clock s + messageTimeout (cfg s)) s1).
  { subst s1 h. rewrite sendRequest_connected by assumption.
    destruct Hok as (Hp & Hs & Hok). repeat split; cbn.
    - lia.
    - apply Forall_app. split.
      + eapply Forall_impl; [|exact Hp]. cbn. intros e Hlt E. lia.
      + constructor; [|constructor]. reflexivity.
    - apply Forall_app. split.
      + eapply Forall_impl; [|exact Hok]. intros e [Hf _]. exact Hf.
      + constructor; [reflexivity|constructor].
    - rewrite (assoc_fresh _ _ Hs). discriminate. }
  destruct (run_awaits _ _ cs s1 Htime Hs1) as (_ & _ & _ & Hfinal).
  exact (Hfinal Hrej).
Qed.


End Client.

(** * Closed examples

    Counterexamples to the statements that fail, and instances showing that
    the hypotheses of the theorems can be met, evaluated with the
    [wellformed] validation. *)

(** C1, as stated, fails: on a fresh, disconnected client the rejection
    wraps INVALID_STATE_ERR, whose [data] is [undefined], not the request;
    the request went into the [data] of TIMEOUT_EXCEEDED. *)
Lemma C1_counterexample :
  let s := initial default_config in
  let s' := with_ERRORS (set_data TIMEOUT_EXCEEDED req1 ERRORS_initial) s in
  let rejection :=
    Rejected (OElement
      (JsonRpcResponseError (VNum 1) (ErrorsRef INVALID_STATE_ERR))) in
  isConnected s = false /\
  sendRequest wellformed req1 VUndefined s = (Ok (PromiseSettled rejection), s') /\
  carried_data s' rejection = Some VUndefined /\
  carried_data s' rejection <> Some req1.
Proof.
  cbn. repeat split. discriminate.
Qed.

Lemma C1_witness :
  let s := initial default_config in
  let rejection :=
    Rejected (OElement
      (JsonRpcResponseError (VNum 1) (ErrorsRef INVALID_STATE_ERR))) in
  fst (sendRequest wellformed req1 (VBool true) s) =
    Ok (PromiseSettled rejection) /\
  carried_data (snd (sendRequest wellformed req1 (VBool true) s)) rejection =
    Some VUndefined /\
  messageTracker (snd (sendRequest wellformed req1 (VBool true) s)) =
    empty_tracker /\
  calls (snd (sendRequest wellformed req1 (VBool true) s)) = [].
Proof.
  pose proof (C1_disconnected_sendRequest_rejects_at_once wellformed
                (initial default_config) 1
                [("id", VNum 1); ("method", VStr "test"); ("params", VObj 2 [])]
                (VBool true) eq_refl) as H.
  cbv zeta in H. destruct H as (H1 & _ & H3 & _ & H5 & H6).
  split; [exact H1|]. split; [exact (H3 eq_refl)|].
  split; [exact H5|exact H6].
Defined.

(** C2, as stated, fails: an object with [id], [result] and [method] has a
    result, yet the method field is still consulted and the message is
    classified as a Request, not as the ResponseResult of step (a).
    Whatever the library accepts, the classification is never that
    ResponseResult. *)
Lemma C2_counterexample :
  let m := VObj 9 [("id", VNum 1); ("result", VNum 5); ("method", VStr "foo")] in
  has_prop "id" m = Ok true /\
  has_prop "result" m = Ok true /\
  classify wellformed m =
    Ok (Some (JsonRpcRequest
                [("id", VNum 1); ("result", VNum 5); ("method", VStr "foo");
                 ("params", VUndefined)])) /\
  (forall lib,
     classify lib m <>
       Ok (Some (JsonRpcResponseResult [("id", VNum 1); ("result", VNum 5)]))).
Proof.
  cbn. repeat split; try reflexivity.
  intros lib. unfold classify, JsonRpcRequest_of. cbn.
  destruct (request_accepted lib _); cbn; discriminate.
Qed.

Lemma C2_witness :
  classify wellformed
    (VObj 9 [("id", VNum 1); ("error", VNum 7); ("method", VStr "foo")]) =
    Throw LibraryError /\
  classify wellformed
    (VObj 9 [("id", VNum 1); ("error", method_not_found); ("method", VStr "foo")]) =
    Ok (Some (JsonRpcRequest
                [("id", VNum 1); ("method", VStr "foo"); ("params", VUndefined)])) /\
  classify wellformed
    (VObj 9 [("id", VNum 1); ("result", VNum 5); ("error", method_not_found)]) =
    Ok (Some (JsonRpcResponseError (VNum 1) (JsonRpcError method_not_found))).
Proof.
  split; [|split].
  - apply (proj1 (C2_method_is_consulted_last_and_wins wellformed 9
             [("id", VNum 1); ("error", VNum 7); ("method", VStr "foo")]
             (VNum 1) eq_refl) (VNum 7)); reflexivity.
  - apply (proj1 (proj2 (C2_method_is_consulted_last_and_wins wellformed 9
             [("id", VNum 1); ("error", method_not_found); ("method", VStr "foo")]
             (VNum 1) eq_refl)
             ltac:(intros e He; injection He as <-; reflexivity))
             (VStr "foo") eq_refl).
  - apply (proj2 (proj2 (C2_method_is_consulted_last_and_wins wellformed 9
             [("id", VNum 1); ("result", VNum 5); ("error", method_not_found)]
             (VNum 1) eq_refl)
             ltac:(intros e He; injection He as <-; reflexivity))
             eq_refl).
Defined.

(** C5, as stated, fails: the object has an id, a result and an error and no
    method, but its error, 7, is not an error object; [JsonRpcError] rejects
    it, and both the classifier and the filter of the pending request with
    that id end with the constructor's exception instead of yielding a
    ResponseError. *)
Lemma C5_counterexample :
  let m := VObj 9 [("id", VNum 1); ("result", VNum 5); ("error", VNum 7)] in
  has_prop "id" m = Ok true /\
  has_prop "result" m = Ok true /\
  has_prop "error" m = Ok true /\
  has_prop "method" m = Ok false /\
  classify wellformed m = Throw LibraryError /\
  filterMessage wellformed m req1 VUndefined = Throw LibraryError /\
  (forall j, classify wellformed m <> Ok (Some j)).
Proof.
  cbn. repeat split. intros j. discriminate.
Qed.

Lemma C5_witness :
  let m :=
    VObj 9 [("id", VNum 1); ("result", VNum 5); ("error", method_not_found)] in
  classify wellformed m =
    Ok (Some (JsonRpcResponseError (VNum 1) (JsonRpcError method_not_found))) /\
  filterMessage wellformed m req1 VUndefined =
    Ok ([], Some (Rejected (OElement
                    (JsonRpcResponseError (VNum 1)
                       (JsonRpcError method_not_found))))).
Proof.
  pose proof (proj1 (C5_error_overrides_result wellformed 9
    [("id", VNum 1); ("result", VNum 5); ("error", method_not_found)]
    (VNum 1) (VNum 5) method_not_found eq_refl eq_refl eq_refl eq_refl)
    eq_refl) as [Hc Hf].
  split.
  - exact Hc.
  - exact (Hf req1 VUndefined (VNum 1) eq_refl eq_refl).
Defined.

(** C7, as stated, fails: the reply has the request's id and an error, but
    the error, the string "no", is not an error object; [JsonRpcError]
    rejects it, [onMessage] ends with the constructor's exception, and the
    request is not rejected with a ResponseError: it stays pending. *)
Lemma C7_counterexample :
  let s := with_isConnected true (initial default_config) in
  let s1 := snd (sendRequest wellformed req1 VUndefined s) in
  let reply := VObj 10 [("id", VNum 1); ("error", VStr "no")] in
  fst (sendRequest wellformed req1 VUndefined s) = Ok (PromiseOf 0) /\
  onMessage wellformed reply s1 = (Throw LibraryError, s1) /\
  promise_state (snd (onMessage wellformed reply s1)) (PromiseOf 0) = None /\
  pending (messageTracker (snd (onMessage wellformed reply s1))) =
    [registered wellformed req1 VUndefined s].
Proof.
  cbn. repeat split.
Qed.

Lemma C7_witness :
  let s := run wellformed [CallConnect ConnectResolves] (initial default_config) in
  let s1 := snd (sendRequest wellformed req1 VUndefined s) in
  let s2 := run wellformed
              [CallSendEvent (VObj 11 [("method", VStr "tick")]);
               InboundDisconnect VUndefined; TimePasses 10] s1 in
  fst (sendRequest wellformed req1 VUndefined s) = Ok (PromiseOf 0) /\
  promise_state s2 (PromiseOf 0) = None /\
  promise_state
    (snd (onMessage wellformed
            (VObj 10 [("id", VNum 1); ("result", VStr "ok")]) s2))
    (PromiseOf 0) =
    Some (Resolved (OElement
            (JsonRpcResponseResult [("id", VNum 1); ("result", VStr "ok")]))) /\
  promise_state
    (snd (onMessage wellformed
            (VObj 10 [("id", VNum 1); ("error", method_not_found)]) s2))
    (PromiseOf 0) =
    Some (Rejected (OElement
            (JsonRpcResponseError (VNum 1) (JsonRpcError method_not_found)))) /\
  onMessage wellformed (VObj 10 [("id", VNum 1); ("error", VStr "no")]) s2 =
    (Throw LibraryError, s2) /\
  promise_state
    (snd (onMessage wellformed
            (VObj 10 [("id", VNum 2); ("result", VStr "ok")]) s2))
    (PromiseOf 0) = None.
Proof.
  intros s s1 s2.
  pose proof (C7_request_is_correlated_by_id wellformed default_config
                [CallConnect ConnectResolves]
                [CallSendEvent (VObj 11 [("method", VStr "tick")]);
                 InboundDisconnect VUndefined; TimePasses 10]
                1 [("id", VNum 1); ("method", VStr "test"); ("params", VObj 2 [])]
                VUndefined eq_refl) as [(H1 & _) Hlater].
  destruct (Hlater (or_introl eq_refl)) as (Hp & Hother & Hreplies).
  assert (Hdef : Forall (fun e => defined (e_message e))
                   (pending (messageTracker s2)))
    by (repeat constructor; discriminate).
  destruct (Hreplies Hdef) as (Hres & Herr & Hrej).
  split; [exact H1|]. split; [exact Hp|]. split; [|split; [|split]].
  - exact (proj2 (Hres 10 [("id", VNum 1); ("result", VStr "ok")] (VStr "ok")
                    eq_refl eq_refl eq_refl)).
  - exact (proj2 (Herr 10 [("id", VNum 1); ("error", method_not_found)]
                    method_not_found eq_refl eq_refl eq_refl)).
  - exact (Hrej 10 [("id", VNum 1); ("error", VStr "no")] (VStr "no")
             eq_refl eq_refl eq_refl).
  - exact (proj2 (Hother (VObj 10 [("id", VNum 2); ("result", VStr "ok")])
                    eq_refl)).
Defined.

Lemma C10_witness :
  let s := with_isConnected true (initial default_config) in
  let s1 := snd (sendRequest wellformed req1 VUndefined s) in
  let s2 := snd (sendRequest wellformed req2 VUndefined
                   (with_isConnected false s1)) in
  data (ERRORS s2) TIMEOUT_EXCEEDED = req2 /\
  exists e,
    In e (pending (messageTracker s2)) /\
    e_handle e = 0 /\
    e_message e = req1 /\
    e_timeoutRejectWith e = OError TIMEOUT_EXCEEDED /\
    carried_data s2 (Rejected (e_timeoutRejectWith e)) = Some req2.
Proof.
  intros s s1 s2.
  pose proof (C10_pending_timeout_carries_latest_request wellformed
                s s1 req1 VUndefined 0 eq_refl req2 VUndefined false) as H.
  cbv zeta in H.
  exact (proj2 (proj2 H)).
Defined.

Lemma JsonRpcClient_settings_defaults_witness :
  JsonRpcClient_settings
    (VObj 5 [("transportProvider", some_provider); ("messageTimeout", VUndefined)]) =
    Configured
      {| transportProvider := some_provider;
         config_messageCheckInterval := VNum 1000;
         config_messageTimeout := VUndefined |} /\
  JsonRpcClient_settings
    (VObj 5 (set_prop "reconnect" (VBool true)
               [("transportProvider", some_provider);
                ("messageTimeout", VUndefined)])) =
  JsonRpcClient_settings
    (VObj 5 [("transportProvider", some_provider); ("messageTimeout", VUndefined)]).
Proof.
  pose proof (JsonRpcClient_settings_defaults 5
                [("transportProvider", some_provider);
                 ("messageTimeout", VUndefined)]
                some_provider eq_refl ltac:(discriminate)) as [H1 H2].
  split; [exact H1|].
  apply (H2 "reconnect" (VBool true)); discriminate.
Defined.

Lemma filterMessage_settles_only_matching_replies_witness :
  exists a ps,
    VObj 10 [("id", VNum 1); ("result", VStr "ok")] = VObj a ps /\
    id_matches (VObj 10 [("id", VNum 1); ("result", VStr "ok")]) req1 = true /\
    ((exists e,
        lookup "error" ps = Some e /\
        Resolved (OElement
          (JsonRpcResponseResult [("id", VNum 1); ("result", VStr "ok")])) =
        Rejected (OElement
          (JsonRpcResponseError (field "id" ps) (JsonRpcError e)))) \/
     (exists r,
        lookup "error" ps = None /\
        lookup "result" ps = Some r /\
        Resolved (OElement
          (JsonRpcResponseResult [("id", VNum 1); ("result", VStr "ok")])) =
        Resolved (OElement
          (JsonRpcResponseResult [("id", field "id" ps); ("result", r)])))).
Proof.
  exact (filterMessage_settles_only_matching_replies wellformed
           (VObj 10 [("id", VNum 1); ("result", VStr "ok")]) req1 VUndefined
           [] _ eq_refl).
Defined.

Lemma filterMessage_emits_only_when_enabled_witness :
  let m := VObj 10 [("id", VNum 1); ("result", VStr "ok")] in
  (VNum 1 <> VBool true -> ([] : list action) = []) /\
  (filterMessage wellformed m req1 (VBool true) =
     Ok ([Emit "message" (OValue m)],
         Some (Resolved (OElement
                 (JsonRpcResponseResult [("id", VNum 1); ("result", VStr "ok")])))) /\
   [Emit "message" (OValue m)] = [Emit "message" (OValue m)]).
Proof.
  intros m. split.
  - exact (proj1 (proj2 (filterMessage_emits_only_when_enabled wellformed
                           m req1 (VNum 1) [] _ eq_refl))).
  - split; [reflexivity|].
    apply (proj2 (proj2 (filterMessage_emits_only_when_enabled wellformed
                           m req1 (VBool true) _ _ eq_refl)));
      [discriminate|reflexivity].
Defined.

Lemma sendRequest_throws_witness :
  fst (sendRequest wellformed VNull VUndefined (initial default_config)) =
    Throw TypeError /\
  data (ERRORS (snd (sendRequest wellformed VNull VUndefined
                       (initial default_config))))
    TIMEOUT_EXCEEDED = VNull.
Proof.
  split.
  - apply (proj1 (sendRequest_throws_only_without_request wellformed
                    VNull VUndefined (initial default_config))).
    repeat split. left. reflexivity.
  - apply (proj2 (sendRequest_throws_only_without_request wellformed
                    VNull VUndefined (initial default_config))).
Defined.

Lemma onMessage_without_reply_fields_witness :
  let s := snd (sendRequest wellformed req1 VUndefined
                  (with_isConnected true (initial default_config))) in
  let m := VObj 10 [("id", VNum 1); ("method", VStr "ping")] in
  let request :=
    JsonRpcRequest
      [("id", VNum 1); ("method", VStr "ping"); ("params", VUndefined)] in
  classify wellformed m = Ok (Some request) /\
  onMessage wellformed m s =
    (Ok tt, with_calls (calls s ++ [Emit "message" (OElement request)]) s).
Proof.
  intros s m request.
  assert (Hok : Forall (entry_defined wellformed) (pending (messageTracker s)))
    by (repeat constructor; discriminate).
  exact (onMessage_without_reply_fields_leaves_tracker wellformed s 10
           [("id", VNum 1); ("method", VStr "ping")] Hok eq_refl eq_refl).
Defined.

Lemma onMessage_unmatched_emits_once_witness :
  let s := initial default_config in
  onMessage wellformed (VNum 42) s =
    (Ok tt, with_calls (calls s ++ [Emit "message" (OValue VUndefined)]) s) /\
  classify wellformed (VNum 42) = Ok None.
Proof.
  intros s.
  pose proof (onMessage_unmatched_emits_once wellformed (VNum 42) s s eq_refl)
    as (H1 & H2 & _).
  split; [exact H1|]. apply H2. discriminate.
Defined.

Lemma onMessage_null_witness :
  let s := snd (sendRequest wellformed req1 VUndefined
                  (with_isConnected true (initial default_config))) in
  onMessage wellformed VNull s = (Throw TypeError, s).
Proof.
  intros s. apply onMessage_null_throws_and_changes_nothing.
  subst s. cbn. constructor; [reflexivity|constructor].
Defined.



Lemma pending_timeouts_carry_last_request_witness :
  let cs := [CallConnect ConnectResolves;
             CallSendRequest req1 VUndefined;
             CallSendRequest req2 VUndefined] in
  let s := run wellformed cs (initial default_config) in
  let e := registered wellformed req1 VUndefined
             (with_isConnected true
                (with_calls
                   [Emit "connecting" (OValue VUndefined); TransportConnect;
                    Emit "connected" (OValue VUndefined);
                    Settle (Resolved (OValue VUndefined))]
                   (initial default_config))) in
  e_message e = req1 /\
  exists req,
    last_request cs = Some req /\
    e_filter e = filterMessage wellformed /\
    e_timeoutRejectWith e = OError TIMEOUT_EXCEEDED /\
    carried_data s (Rejected (e_timeoutRejectWith e)) = Some req.
Proof.
  intros cs s e. split; [reflexivity|].
  apply (pending_timeouts_carry_last_request wellformed cs default_config e).
  left. reflexivity.
Defined.

Lemma onMessage_accepts_every_object_witness :
  let s := run wellformed
             [CallConnect ConnectResolves; CallSendRequest req1 VUndefined]
             (initial default_config) in
  let reply := VObj 10 [("id", VNum 1); ("result", VStr "ok")] in
  (fst (onMessage wellformed reply s) = Ok tt \/
   fst (onMessage wellformed reply s) = Throw LibraryError) /\
  fst (onMessage wellformed reply s) = Ok tt.
Proof.
  intros s reply.
  assert (Hd : sends_defined
                 [CallConnect ConnectResolves; CallSendRequest req1 VUndefined])
    by (repeat constructor; discriminate).
  pose proof (onMessage_accepts_every_object wellformed _ default_config 10
                [("id", VNum 1); ("result", VStr "ok")] Hd) as [H1 H2].
  split; [exact H1|]. apply H2; [discriminate|reflexivity|reflexivity].
Defined.

Lemma no_timeout_before_messageTimeout_witness :
  let s := with_isConnected true (initial default_config) in
  let cs := [CallSendRequest req2 VUndefined; TimePasses 2000;
             InboundDisconnect VUndefined; ConnectionChanges false;
             TimePasses 3000; TimerSweep] in
  promise_state (run wellformed cs (snd (sendRequest wellformed req1 VUndefined s)))
    (PromiseOf 0) =
    Some (Rejected (OError TIMEOUT_EXCEEDED)) /\
  (clock s + messageTimeout (cfg s) <=
   clock (run wellformed cs (snd (sendRequest wellformed req1 VUndefined s))))%Z.
Proof.
  intros s cs. split; [reflexivity|].
  apply (no_timeout_before_messageTimeout wellformed s req1 VUndefined cs
           (tracker_ok_empty wellformed) eq_refl).
  - repeat constructor; cbn; lia.
  - reflexivity.
Defined.
